(** * A chat front end over a text-generation service

    Shallow embedding of [types.ts], of the generation service
    ([services/geminiService]: [generateContent]) and of the state and
    event handlers of the [App] component ([handleSendMessage],
    [handleSaveSettings], [PromptForm.handleSubmit]), and of the
    handlers of a [MessageBubble] ([handleCopy], [handleSendToTelegram]).

    React state is a record of the [useState] cells; a handler is a
    function of the values its closure captured at render time and
    returns the list of setter calls it makes, in order.  The single
    [await] of [handleSendMessage] splits it into the part that runs in
    the submit event and the part that runs when the promise settles. *)

From Stdlib Require Import NArith Ascii String Bool Lia.
From stdpp Require Import base list.

Local Open Scope N_scope.

(** ** JavaScript strings *)

Module Js.

(** A JavaScript string is a sequence of 16-bit code units. *)
Definition char16 := N.
Definition jsstring := list char16.

(** A string literal of the source (all of them are ASCII). *)
Definition lit (s : string) : jsstring :=
  map N_of_ascii (list_ascii_of_string s).

(** [Boolean(s)]: a string is truthy unless it is empty. *)
Definition truthy (s : jsstring) : bool :=
  match s with
  | [] => false
  | _ :: _ => true
  end.

(** ECMAScript [WhiteSpace] and [LineTerminator] code points, the ones
    [String.prototype.trim] strips: TAB, LF, VT, FF, CR, SP, NBSP,
    U+1680, U+2000..U+200A, LS, PS, U+202F, U+205F, U+3000, BOM. *)
Definition isWhiteSpace (c : char16) : bool :=
  (9 <=? c) && (c <=? 13)
  || (c =? 32) || (c =? 160) || (c =? 5760)
  || (8192 <=? c) && (c <=? 8202)
  || (c =? 8232) || (c =? 8233) || (c =? 8239) || (c =? 8287)
  || (c =? 12288) || (c =? 65279).

Fixpoint trimStart (s : jsstring) : jsstring :=
  match s with
  | [] => []
  | c :: s' => if isWhiteSpace c then trimStart s' else s
  end.

Definition trimEnd (s : jsstring) : jsstring :=
  rev (trimStart (rev s)).

(** [s.trim()] *)
Definition trim (s : jsstring) : jsstring :=
  trimEnd (trimStart s).

(** [s.startsWith(p)] *)
Fixpoint startsWith (s p : jsstring) : bool :=
  match p, s with
  | [], _ => true
  | _ :: _, [] => false
  | a :: p', b :: s' => (a =? b) && startsWith s' p'
  end.

(** [s.includes(sub)]: [sub] occurs in [s] at some position. *)
Fixpoint includes (s sub : jsstring) : bool :=
  startsWith s sub
  || match s with
     | [] => false
     | _ :: s' => includes s' sub
     end.

End Js.
Import Js.

(** ** types.ts *)

Inductive MessageRole := USER | MODEL.

Record Message := mkMessage { role : MessageRole; text : jsstring }.

(** ** Promises and thrown values *)

(** What a [catch] clause can tell about the value it caught: an
    [Error] instance carries a [message]; anything else fails
    [instanceof Error]. *)
Inductive JsValue :=
| JsError (message : jsstring)
| JsOther.

(** How an awaited promise of a string settles. *)
Inductive Outcome :=
| Fulfilled (value : jsstring)
| Rejected (reason : JsValue).

(** ** services/geminiService *)

Record GenerateContentResponse := mkResponse { response_text : jsstring }.

(** How [await ai.models.generateContent(...)] ends. *)
Inductive ApiResult :=
| ApiReturns (response : GenerateContentResponse)
| ApiThrows (error : JsValue).

Definition msg_invalid_key : jsstring :=
  lit "Error: The provided API key is not valid. Please ensure you have a valid Gemini API key set up.".
Definition msg_communication (message : jsstring) : jsstring :=
  lit "An error occurred while communicating with the Gemini API: " ++ message.
Definition msg_unknown : jsstring :=
  lit "An unknown error occurred. Please check the console for details.".

(** The [catch] block of [generateContent]. *)
Definition generateContent_catch (error : JsValue) : jsstring :=
  match error with
  | JsError message =>
      if includes message (lit "API key not valid")
      then msg_invalid_key
      else msg_communication message
  | JsOther => msg_unknown
  end.

(** [generateContent(systemInstruction, userPrompt)].  The remote model
    is the function [ai_models_generateContent], given [contents] and
    [config.systemInstruction]. *)
Definition generateContent
    (ai_models_generateContent : jsstring -> jsstring -> ApiResult)
    (systemInstruction userPrompt : jsstring) : Outcome :=
  match ai_models_generateContent userPrompt systemInstruction with
  | ApiReturns response => Fulfilled (response_text response)
  | ApiThrows error => Fulfilled (generateContent_catch error)
  end.

(** ** App: state *)

Definition INITIAL_SYSTEM_PROMPT : jsstring :=
  lit "You are a helpful and witty Telegram bot assistant. Your responses should be concise, engaging, and suitable for a chat application.".

(** The arguments of one [generateContent] call that was started and has
    not settled yet. *)
Record Call := mkCall { call_systemInstruction : jsstring; call_userPrompt : jsstring }.

(** The [useState] cells of [App] ([systemInstruction], [messages],
    [isLoading], [error]) and of [PromptForm] ([prompt]), and the calls
    whose promise is outstanding. *)
Record World := mkWorld {
  systemInstruction : jsstring;
  messages : list Message;
  isLoading : bool;
  error : option jsstring;
  prompt : jsstring;
  inflight : list Call
}.

Definition initial : World :=
  {| systemInstruction := INITIAL_SYSTEM_PROMPT;
     messages := [];
     isLoading := false;
     error := None;
     prompt := [];
     inflight := [] |}.

(** A call of a state setter. *)
Inductive Update :=
| SetSystemInstruction (v : jsstring)
| SetMessages (v : list Message)        (* setMessages(v) *)
| SetMessages_append (m : Message)      (* setMessages(prev => [...prev, m]) *)
| SetIsLoading (v : bool)
| SetError (v : option jsstring)
| SetPrompt (v : jsstring).

Definition apply_update (w : World) (u : Update) : World :=
  match u with
  | SetSystemInstruction v =>
      mkWorld v (messages w) (isLoading w) (error w) (prompt w) (inflight w)
  | SetMessages v =>
      mkWorld (systemInstruction w) v (isLoading w) (error w) (prompt w) (inflight w)
  | SetMessages_append m =>
      mkWorld (systemInstruction w) (messages w ++ [m]) (isLoading w) (error w) (prompt w) (inflight w)
  | SetIsLoading v =>
      mkWorld (systemInstruction w) (messages w) v (error w) (prompt w) (inflight w)
  | SetError v =>
      mkWorld (systemInstruction w) (messages w) (isLoading w) v (prompt w) (inflight w)
  | SetPrompt v =>
      mkWorld (systemInstruction w) (messages w) (isLoading w) (error w) v (inflight w)
  end.

Definition apply_updates (w : World) (us : list Update) : World :=
  foldl apply_update w us.

(** What a handler did by the time it returned to the event loop: the
    setter calls it made and, if it stopped at an [await], the call it
    is waiting for. *)
Record Effects := mkEffects { updates : list Update; awaiting : option Call }.

Definition nothing : Effects := mkEffects [] None.

(** ** App: handlers *)

(** [handleSendMessage(prompt)] up to its [await]; [isLoading] and
    [systemInstruction] are the values captured by [useCallback]. *)
Definition handleSendMessage (isLoading : bool) (systemInstruction : jsstring)
    (prompt : jsstring) : Effects :=
  if negb (truthy prompt) || isLoading then nothing
  else
    let newUserMessage := mkMessage USER prompt in
    mkEffects
      [SetMessages_append newUserMessage; SetIsLoading true; SetError None]
      (Some (mkCall systemInstruction prompt)).

(** The rest of [handleSendMessage], run when the awaited call settles:
    the end of the [try] block or the [catch] block, then [finally]. *)
Definition handleSendMessage_settle (o : Outcome) : list Update :=
  match o with
  | Fulfilled responseText =>
      let newModelMessage := mkMessage MODEL responseText in
      [SetMessages_append newModelMessage]
  | Rejected e =>
      let errorMessage :=
        match e with
        | JsError message => message
        | JsOther => lit "An unexpected error occurred."
        end in
      let errorModelMessage :=
        mkMessage MODEL (lit "Sorry, something went wrong: " ++ errorMessage) in
      [SetError (Some errorMessage); SetMessages_append errorModelMessage]
  end
  ++ [SetIsLoading false].

(** [handleSaveSettings(newInstruction)] *)
Definition handleSaveSettings (newInstruction : jsstring) : list Update :=
  [SetSystemInstruction newInstruction; SetMessages []].

(** [PromptForm.handleSubmit]; [prompt] is the form's own state,
    [isLoading] and [onSendMessage] are its props. *)
Definition handleSubmit (prompt : jsstring) (isLoading : bool)
    (onSendMessage : jsstring -> Effects) : Effects :=
  if truthy (trim prompt) && negb isLoading then
    let sent := onSendMessage (trim prompt) in
    mkEffects (updates sent ++ [SetPrompt []]) (awaiting sent)
  else nothing.

(** [Settings.handleSave]; [localInstruction] is the text area's state. *)
Definition handleSave (localInstruction : jsstring)
    (onSave : jsstring -> list Update) : list Update :=
  onSave localInstruction.

(** ** App: events *)

Inductive Event :=
| Input_onChange (value : jsstring)           (* typing in the prompt box *)
| Form_onSubmit                               (* submitting the prompt form *)
| Settings_onSave (localInstruction : jsstring) (* "Save Personality" *)
| Settle (i : nat) (o : Outcome).             (* the i-th outstanding call settles *)

Definition perform (w : World) (e : Effects) : World :=
  let w' := apply_updates w (updates e) in
  match awaiting e with
  | None => w'
  | Some c =>
      mkWorld (systemInstruction w') (messages w') (isLoading w') (error w')
              (prompt w') (inflight w' ++ [c])
  end.

(** One turn of the event loop.  Every handler is the one created by the
    render of the current state.  A [Settle] needs an outstanding call. *)
Definition step (w : World) (ev : Event) : option World :=
  match ev with
  | Input_onChange value => Some (apply_updates w [SetPrompt value])
  | Form_onSubmit =>
      Some (perform w
              (handleSubmit (prompt w) (isLoading w)
                 (handleSendMessage (isLoading w) (systemInstruction w))))
  | Settings_onSave localInstruction =>
      Some (apply_updates w (handleSave localInstruction handleSaveSettings))
  | Settle i o =>
      match inflight w !! i with
      | None => None
      | Some _ =>
          let w' :=
            mkWorld (systemInstruction w) (messages w) (isLoading w) (error w)
                    (prompt w) (delete i (inflight w)) in
          Some (apply_updates w' (handleSendMessage_settle o))
      end
  end.

Fixpoint run (w : World) (evs : list Event) : option World :=
  match evs with
  | [] => Some w
  | ev :: evs' =>
      match step w ev with
      | None => None
      | Some w' => run w' evs'
      end
  end.

(** The user types [value] and submits. *)
Definition submit (value : jsstring) : list Event :=
  [Input_onChange value; Form_onSubmit].

(** ** services/geminiService: the client's key *)

Definition API_KEY_PLACEHOLDER : jsstring := lit "YOUR_API_KEY_HERE".

(** [!process.env.API_KEY], the test that guards [console.warn];
    [API_KEY] is [None] when the variable is not set. *)
Definition warns_missing_key (API_KEY : option jsstring) : bool :=
  match API_KEY with
  | None => true
  | Some key => negb (truthy key)
  end.

(** [process.env.API_KEY || "YOUR_API_KEY_HERE"], the [apiKey] the
    client is built with. *)
Definition apiKey (API_KEY : option jsstring) : jsstring :=
  match API_KEY with
  | None => API_KEY_PLACEHOLDER
  | Some key => if truthy key then key else API_KEY_PLACEHOLDER
  end.

(** ** JavaScript: encodeURIComponent *)

(** The characters [encodeURIComponent] leaves as they are: letters,
    digits and [- _ . ! ~ * ' ( )]. *)
Definition isUnreserved (c : char16) : bool :=
  (65 <=? c) && (c <=? 90)
  || (97 <=? c) && (c <=? 122)
  || (48 <=? c) && (c <=? 57)
  || (c =? 45) || (c =? 95) || (c =? 46) || (c =? 33) || (c =? 126)
  || (c =? 42) || (c =? 39) || (c =? 40) || (c =? 41).

Definition isLeadSurrogate (c : char16) : bool := (55296 <=? c) && (c <=? 56319).
Definition isTrailSurrogate (c : char16) : bool := (56320 <=? c) && (c <=? 57343).

(** The UTF-8 octets of a code point. *)
Definition utf8 (cp : N) : list N :=
  if cp <? 128 then [cp]
  else if cp <? 2048 then [192 + cp / 64; 128 + cp mod 64]
  else if cp <? 65536 then
    [224 + cp / 4096; 128 + (cp / 64) mod 64; 128 + cp mod 64]
  else
    [240 + cp / 262144; 128 + (cp / 4096) mod 64; 128 + (cp / 64) mod 64;
     128 + cp mod 64].

Definition hexDigit (n : N) : char16 :=
  if n <? 10 then 48 + n else 55 + n.

(** An octet as [%XX], upper-case. *)
Definition percent (octet : N) : jsstring :=
  [37; hexDigit (octet / 16); hexDigit (octet mod 16)].

Definition escape (cp : N) : jsstring := flat_map percent (utf8 cp).

(** [encodeURIComponent(s)]; [None] is the [URIError] thrown at a
    surrogate code unit that is not part of a pair. *)
Fixpoint encodeURIComponent (s : jsstring) : option jsstring :=
  match s with
  | [] => Some []
  | c :: rest =>
      if isUnreserved c then option_map (cons c) (encodeURIComponent rest)
      else if isTrailSurrogate c then None
      else if isLeadSurrogate c then
        match rest with
        | d :: rest' =>
            if isTrailSurrogate d then
              option_map
                (app (escape (65536 + (c - 55296) * 1024 + (d - 56320))))
                (encodeURIComponent rest')
            else None
        | [] => None
        end
      else option_map (app (escape c)) (encodeURIComponent rest)
  end.

(** ** MessageBubble *)

(** [handleSendToTelegram]: the URL handed to [window.open], or [None]
    when [encodeURIComponent] throws and no window is opened. *)
Definition handleSendToTelegram (message : Message) : option jsstring :=
  match encodeURIComponent (text message) with
  | None => None
  | Some text => Some (lit "https://t.me/share/url?url= &text=" ++ text)
  end.

(** The state of one bubble: its [hasCopied] cell, the [setTimeout]
    callbacks not run yet (all with the same delay, so they run in the
    order they were set), and what it wrote to the clipboard. *)
Record Bubble := mkBubble {
  hasCopied : bool;
  timeouts : nat;
  written : list jsstring
}.

Definition mounted : Bubble := mkBubble false 0 [].

(** [handleCopy] *)
Definition handleCopy (message : Message) (b : Bubble) : Bubble :=
  mkBubble true (S (timeouts b)) (written b ++ [text message]).

(** The callback [() => setHasCopied(false)] of the oldest timer runs. *)
Definition timeout_fires (b : Bubble) : option Bubble :=
  match timeouts b with
  | O => None
  | S n => Some (mkBubble false n (written b))
  end.

Inductive BubbleEvent := Copy_onClick | Timeout.

Definition bubble_step (message : Message) (b : Bubble) (ev : BubbleEvent)
    : option Bubble :=
  match ev with
  | Copy_onClick => Some (handleCopy message b)
  | Timeout => timeout_fires b
  end.

Fixpoint bubble_run (message : Message) (b : Bubble) (evs : list BubbleEvent)
    : option Bubble :=
  match evs with
  | [] => Some b
  | ev :: evs' =>
      match bubble_step message b ev with
      | None => None
      | Some b' => bubble_run message b' evs'
      end
  end.

(** ** What is rendered *)

(** [PromptForm]: [disabled] of the input and of the send button. *)
Definition PromptForm_input_disabled (isLoading : bool) : bool := isLoading.

Definition PromptForm_button_disabled (prompt : jsstring) (isLoading : bool) : bool :=
  isLoading || negb (truthy (trim prompt)).

(** [App]: [{error && <div>{error}</div>}], the text of the banner when
    one is rendered. *)
Definition App_banner (error : option jsstring) : option jsstring :=
  match error with
  | None => None
  | Some e => if truthy e then Some e else None
  end.

(** ** The application with its real client *)

(** What happens to the page: the user types, submits, saves a persona,
    or the remote model, behaving as [remote], ends the [i]-th
    outstanding call; [generateContent] then settles with what it makes
    of that, for the arguments the call was started with. *)
Inductive Happening :=
| Typed (value : jsstring)
| Submitted
| Saved (localInstruction : jsstring)
| Answered (i : nat) (remote : jsstring -> jsstring -> ApiResult).

Definition happen (w : World) (h : Happening) : option World :=
  match h with
  | Typed value => step w (Input_onChange value)
  | Submitted => step w Form_onSubmit
  | Saved localInstruction => step w (Settings_onSave localInstruction)
  | Answered i remote =>
      match inflight w !! i with
      | None => None
      | Some c =>
          step w (Settle i (generateContent remote (call_systemInstruction c)
                              (call_userPrompt c)))
      end
  end.

Fixpoint happenings (w : World) (hs : list Happening) : option World :=
  match hs with
  | [] => Some w
  | h :: hs' =>
      match happen w h with
      | None => None
      | Some w' => happenings w' hs'
      end
  end.

(** ** Specification vocabulary *)

(** The three kinds of failure [generateContent] tells apart, by the
    tests of its [catch] block. *)
Inductive FailureCategory := InvalidCredential | CommunicationFailure | UnknownFailure.

Definition category (error : JsValue) : FailureCategory :=
  match error with
  | JsError message =>
      if includes message (lit "API key not valid")
      then InvalidCredential
      else CommunicationFailure
  | JsOther => UnknownFailure
  end.

(** The fixed text a reply of each category shows. *)
Definition description (c : FailureCategory) : jsstring :=
  match c with
  | InvalidCredential => msg_invalid_key
  | CommunicationFailure => msg_communication []
  | UnknownFailure => msg_unknown
  end.

(** The assistant Message a settled call leaves in the conversation. *)
Definition reply (o : Outcome) : Message :=
  match o with
  | Fulfilled responseText => mkMessage MODEL responseText
  | Rejected (JsError message) =>
      mkMessage MODEL (lit "Sorry, something went wrong: " ++ message)
  | Rejected JsOther =>
      mkMessage MODEL
        (lit "Sorry, something went wrong: " ++ lit "An unexpected error occurred.")
  end.

(** An event that is not the settling of a call. *)
Definition is_settle (ev : Event) : bool :=
  match ev with
  | Settle _ _ => true
  | _ => false
  end.

(** The state invariant of the event loop: busy with exactly one
    outstanding call, or idle with none. *)
Definition consistent (w : World) : Prop :=
  (isLoading w = true /\ length (inflight w) = 1%nat)
  \/ (isLoading w = false /\ inflight w = []).

(** A string [trim] leaves as it is. *)
Definition trimmed (s : jsstring) : Prop := trim s = s.

Definition role_eqb (r1 r2 : MessageRole) : bool :=
  match r1, r2 with
  | USER, USER | MODEL, MODEL => true
  | _, _ => false
  end.

(** No two neighbours in the conversation have the same role. *)
Fixpoint alternates (ms : list Message) : bool :=
  match ms with
  | m1 :: (m2 :: _) as rest => negb (role_eqb (role m1) (role m2)) && alternates rest
  | _ => true
  end.

Definition last_role (ms : list Message) : option MessageRole :=
  option_map role (last ms).

Definition is_save (ev : Event) : bool :=
  match ev with
  | Settings_onSave _ => true
  | _ => false
  end.

(** The events of a sequence of turns, each a typed prompt, its
    submission and the settling of its call, which is the [n]-th
    outstanding one. *)
Definition turns_events (n : nat) (turns : list (jsstring * Outcome)) : list Event :=
  flat_map (fun t => submit (fst t) ++ [Settle n (snd t)]) turns.

(** The Messages such turns leave. *)
Definition turns_messages (turns : list (jsstring * Outcome)) : list Message :=
  flat_map (fun t => [mkMessage USER (trim (fst t)); reply (snd t)]) turns.

(** A 16-bit code unit. *)
Definition is_code_unit (c : char16) : Prop := c < 65536.

(** * Properties *)

(** ** Strings *)

Section Strings.

Implicit Types s p sub : jsstring.

Lemma truthy_true s : truthy s = true <-> s <> [].
Proof. destruct s; simpl; split; congruence. Qed.

Lemma truthy_false s : truthy s = false <-> s = [].
Proof. destruct s; simpl; split; congruence. Qed.

Lemma trimStart_nil s : trimStart s = [] <-> forallb isWhiteSpace s = true.
Proof.
  induction s as [|c s IH]; simpl; [tauto|].
  destruct (isWhiteSpace c); simpl; [exact IH|].
  split; discriminate.
Qed.

Lemma forallb_trimStart s :
  forallb isWhiteSpace s = true -> forallb isWhiteSpace (trimStart s) = true.
Proof. intros H. apply trimStart_nil in H. now rewrite H. Qed.

Lemma forallb_rev s : forallb isWhiteSpace (rev s) = forallb isWhiteSpace s.
Proof.
  induction s as [|c s IH]; simpl; [reflexivity|].
  rewrite forallb_app, IH. simpl. rewrite andb_true_r. apply andb_comm.
Qed.

(** The head of a string that [trimStart] left non-empty is not white
    space. *)
Lemma trimStart_head s c s' : trimStart s = c :: s' -> isWhiteSpace c = false.
Proof.
  induction s as [|a s IH]; simpl; [discriminate|].
  destruct (isWhiteSpace a) eqn:E; [exact IH|].
  intros [= <- _]. exact E.
Qed.

(** [trim] returns the empty string exactly on the strings made of white
    space only, the empty one among them. *)
Lemma trim_nil s : trim s = [] <-> forallb isWhiteSpace s = true.
Proof.
  unfold trim, trimEnd. split.
  - intros H.
    assert (H1 : trimStart (rev (trimStart s)) = []).
    { rewrite <- (rev_involutive (trimStart _)), H. reflexivity. }
    apply trimStart_nil in H1. rewrite forallb_rev in H1.
    apply trimStart_nil.
    destruct (trimStart s) as [|c s'] eqn:E; [reflexivity|].
    apply trimStart_head in E. simpl in H1. rewrite E in H1. discriminate.
  - intros H. apply trimStart_nil in H. rewrite H. reflexivity.
Qed.

Lemma startsWith_app p s : startsWith (p ++ s) p = true.
Proof.
  induction p as [|a p IH]; simpl; [now destruct s|].
  rewrite N.eqb_refl. exact IH.
Qed.

Lemma includes_startsWith s sub : startsWith s sub = true -> includes s sub = true.
Proof. destruct s; simpl; intros ->; reflexivity. Qed.

Lemma includes_app_l p s : includes (p ++ s) p = true.
Proof. apply includes_startsWith, startsWith_app. Qed.

Lemma includes_refl s : includes s s = true.
Proof. rewrite <- (app_nil_r s) at 1. apply includes_app_l. Qed.

Lemma includes_app_r p s : includes (p ++ s) s = true.
Proof.
  induction p as [|a p IH]; simpl; [apply includes_refl|].
  rewrite IH. apply orb_true_r.
Qed.

End Strings.

(** ** Handlers and the event loop *)

Lemma run_app w evs1 evs2 :
  run w (evs1 ++ evs2) =
  match run w evs1 with
  | Some w' => run w' evs2
  | None => None
  end.
Proof.
  revert w. induction evs1 as [|ev evs1 IH]; intros w; simpl; [reflexivity|].
  destruct (step w ev); [apply IH | reflexivity].
Qed.

Lemma handleSubmit_blank value l onSendMessage :
  trim value = [] -> handleSubmit value l onSendMessage = nothing.
Proof. unfold handleSubmit. intros ->. reflexivity. Qed.

Lemma handleSubmit_busy value onSendMessage :
  handleSubmit value true onSendMessage = nothing.
Proof. unfold handleSubmit. rewrite andb_false_r. reflexivity. Qed.

Lemma handleSendMessage_busy s p : handleSendMessage true s p = nothing.
Proof. unfold handleSendMessage. rewrite orb_true_r. reflexivity. Qed.

Lemma handleSubmit_send value s :
  trim value <> [] ->
  handleSubmit value false (handleSendMessage false s) =
  mkEffects
    [SetMessages_append (mkMessage USER (trim value)); SetIsLoading true;
     SetError None; SetPrompt []]
    (Some (mkCall s (trim value))).
Proof.
  intros H. apply truthy_true in H.
  unfold handleSubmit, handleSendMessage. rewrite H. reflexivity.
Qed.

(** A valid submission from an idle state: the user Message is appended,
    the flag is raised, the banner and the box are emptied, one call is
    started with the current persona. *)
Lemma submit_dispatch w value :
  isLoading w = false -> trim value <> [] ->
  run w (submit value) =
  Some (mkWorld (systemInstruction w)
          (messages w ++ [mkMessage USER (trim value)]) true None []
          (inflight w ++ [mkCall (systemInstruction w) (trim value)])).
Proof.
  intros Hl Hv. destruct w as [s ms l e p fl]. simpl in Hl. subst l.
  simpl. rewrite handleSubmit_send by assumption. reflexivity.
Qed.

(** The call started last settles. *)
Lemma settle_last s ms l e p fl c o :
  step (mkWorld s ms l e p (fl ++ [c])) (Settle (length fl) o) =
  Some (apply_updates (mkWorld s ms l e p fl) (handleSendMessage_settle o)).
Proof.
  simpl. rewrite list_lookup_middle by reflexivity.
  rewrite delete_middle, app_nil_r. reflexivity.
Qed.

Lemma run_cons w ev evs :
  run w (ev :: evs) =
  match step w ev with
  | None => None
  | Some w' => run w' evs
  end.
Proof. reflexivity. Qed.

Lemma step_save w newInstruction :
  step w (Settings_onSave newInstruction) =
  Some (mkWorld newInstruction [] (isLoading w) (error w) (prompt w) (inflight w)).
Proof. reflexivity. Qed.

Lemma settle_messages w o :
  messages (apply_updates w (handleSendMessage_settle o)) = messages w ++ [reply o].
Proof. destruct w, o as [t|[m|]]; reflexivity. Qed.

Lemma settle_isLoading w o :
  isLoading (apply_updates w (handleSendMessage_settle o)) = false.
Proof. destruct w, o as [t|[m|]]; reflexivity. Qed.

Lemma settle_inflight w o :
  inflight (apply_updates w (handleSendMessage_settle o)) = inflight w.
Proof. destruct w, o as [t|[m|]]; reflexivity. Qed.

Lemma step_consistent w ev w' :
  consistent w -> step w ev = Some w' -> consistent w'.
Proof.
  unfold consistent. destruct w as [s ms l e p fl]; simpl.
  destruct ev as [value| |localInstruction|i o]; simpl.
  - intros H [= <-]. exact H.
  - intros H [= <-]. destruct H as [[-> Hfl]|[-> ->]].
    + rewrite handleSubmit_busy. left. simpl. auto.
    + destruct (trim p) as [|c t] eqn:E.
      * rewrite handleSubmit_blank by assumption. right. simpl. auto.
      * rewrite handleSubmit_send by congruence. left. simpl. auto.
  - intros H [= <-]. exact H.
  - intros H. destruct (fl !! i) as [c|] eqn:E; [|discriminate].
    intros [= <-]. right. rewrite settle_isLoading, settle_inflight. simpl.
    split; [reflexivity|].
    destruct H as [[_ Hfl]|[_ ->]]; [|discriminate].
    apply nil_length_inv. rewrite length_delete by eauto. rewrite Hfl. reflexivity.
Qed.

Lemma run_consistent evs : forall w w',
  consistent w -> run w evs = Some w' -> consistent w'.
Proof.
  induction evs as [|ev evs IH]; simpl; intros w w' Hw.
  - intros [= <-]. exact Hw.
  - destruct (step w ev) as [w1|] eqn:E; [|discriminate].
    apply IH. eapply step_consistent; eassumption.
Qed.

Lemma initial_consistent : consistent initial.
Proof. right. split; reflexivity. Qed.

Lemma apply_updates_inflight us : forall w,
  inflight (apply_updates w us) = inflight w.
Proof.
  unfold apply_updates. induction us as [|u us IH]; intros w; simpl; [reflexivity|].
  rewrite IH. destruct u; reflexivity.
Qed.

(** No handler cancels a call: whatever is outstanding before an event
    other than a settling is still outstanding after it, at the same
    position. *)
Lemma step_keeps_inflight w ev w' :
  is_settle ev = false -> step w ev = Some w' ->
  exists started, inflight w' = inflight w ++ started.
Proof.
  destruct ev as [value| |localInstruction|i o]; simpl; try discriminate;
    intros _ [= <-].
  - exists []. now rewrite app_nil_r.
  - unfold perform.
    destruct (awaiting _) as [c|]; [exists [c] | exists []]; simpl;
      rewrite apply_updates_inflight, ?app_nil_r; reflexivity.
  - exists []. now rewrite app_nil_r.
Qed.

(** A valid submission from an idle state followed by the settling of
    the call it started. *)
Lemma turn w value o :
  isLoading w = false -> trim value <> [] ->
  exists w',
    run w (submit value ++ [Settle (length (inflight w)) o]) = Some w'
    /\ messages w' = messages w ++ [mkMessage USER (trim value); reply o]
    /\ isLoading w' = false
    /\ inflight w' = inflight w.
Proof.
  intros Hl Hv. rewrite run_app, (submit_dispatch w value Hl Hv).
  unfold run. rewrite settle_last. eexists. split; [reflexivity|].
  rewrite settle_messages, settle_isLoading, settle_inflight. simpl.
  rewrite <- app_assoc. repeat split; reflexivity.
Qed.

(** ** Prompt submission *)

(** C1. Submitting a prompt that is empty after trimming (by [trim_nil]:
    made of white space only, or empty) does nothing: [handleSubmit]
    calls no setter and starts no call, so no Message is appended and
    the busy flag is not set, and [handleSendMessage] called with the
    empty string does nothing either; the state after the event is the
    state before it. *)
Theorem blank_submit_is_noop (w : World) :
  trim (prompt w) = [] ->
  handleSubmit (prompt w) (isLoading w)
    (handleSendMessage (isLoading w) (systemInstruction w)) = nothing
  /\ handleSendMessage (isLoading w) (systemInstruction w) (trim (prompt w)) = nothing
  /\ step w Form_onSubmit = Some w.
Proof.
  intros H. split; [|split].
  - apply handleSubmit_blank, H.
  - rewrite H. reflexivity.
  - simpl. rewrite handleSubmit_blank by exact H. reflexivity.
Qed.

Lemma blank_submit_is_noop_witness :
  let w := mkWorld INITIAL_SYSTEM_PROMPT [] false None (lit "  ") [] in
  trim (prompt w) = []
  /\ step w Form_onSubmit = Some w.
Proof.
  intros w. split; [reflexivity|].
  apply (blank_submit_is_noop w). reflexivity.
Defined.

(** C2. While the busy flag is set a submission does nothing: neither
    [handleSubmit] nor [handleSendMessage] calls a setter or starts a
    call, and the state is unchanged.  Hence in every state the event
    loop reaches from the initial one at most one call is outstanding. *)
Theorem busy_submit_is_noop :
  (forall w : World,
     isLoading w = true ->
     handleSubmit (prompt w) (isLoading w)
       (handleSendMessage (isLoading w) (systemInstruction w)) = nothing
     /\ (forall p, handleSendMessage (isLoading w) (systemInstruction w) p = nothing)
     /\ step w Form_onSubmit = Some w)
  /\ (forall (evs : list Event) (w : World),
        run initial evs = Some w -> (length (inflight w) <= 1)%nat).
Proof.
  split.
  - intros w H. rewrite H. split; [|split].
    + apply handleSubmit_busy.
    + intros p. apply handleSendMessage_busy.
    + simpl. rewrite H, handleSubmit_busy. reflexivity.
  - intros evs w H.
    destruct (run_consistent evs initial w initial_consistent H) as [[_ Hl]|[_ Hl]];
      rewrite Hl; simpl; lia.
Qed.

Lemma busy_submit_is_noop_witness :
  let busy :=
    mkWorld INITIAL_SYSTEM_PROMPT [mkMessage USER (lit "Hi")] true None
            (lit "again") [mkCall INITIAL_SYSTEM_PROMPT (lit "Hi")] in
  run initial (submit (lit "Hi") ++ [Input_onChange (lit "again")]) = Some busy
  /\ step busy Form_onSubmit = Some busy
  /\ (length (inflight busy) <= 1)%nat.
Proof.
  intros busy.
  assert (R : run initial (submit (lit "Hi") ++ [Input_onChange (lit "again")])
              = Some busy) by reflexivity.
  split; [exact R|split].
  - apply (proj1 busy_submit_is_noop busy). reflexivity.
  - exact (proj2 busy_submit_is_noop _ busy R).
Defined.

(** C3. A non-blank prompt submitted from an idle state, whose call is
    then fulfilled with [responseText], adds exactly two Messages to the
    conversation: the user's, with the trimmed prompt, then the
    assistant's, with [responseText]; the busy flag is down afterwards. *)
Theorem successful_turn (w : World) (value responseText : jsstring) :
  isLoading w = false ->
  trim value <> [] ->
  exists w',
    run w (submit value ++ [Settle (length (inflight w)) (Fulfilled responseText)])
    = Some w'
    /\ messages w' =
       messages w ++ [mkMessage USER (trim value); mkMessage MODEL responseText]
    /\ isLoading w' = false.
Proof.
  intros Hl Hv.
  destruct (turn w value (Fulfilled responseText) Hl Hv) as (w' & R & M & L & _).
  exists w'. auto.
Qed.

Lemma successful_turn_witness :
  exists w',
    run initial (submit (lit "Hello") ++ [Settle 0%nat (Fulfilled (lit "Hi there!"))])
    = Some w'
    /\ messages w' =
       [mkMessage USER (lit "Hello"); mkMessage MODEL (lit "Hi there!")]
    /\ isLoading w' = false.
Proof.
  apply (successful_turn initial (lit "Hello") (lit "Hi there!")).
  - reflexivity.
  - discriminate.
Defined.

(** ** Failing calls *)

Lemma category_texts_distinct e1 e2 :
  category e1 <> category e2 -> generateContent_catch e1 <> generateContent_catch e2.
Proof.
  destruct e1 as [m1|], e2 as [m2|]; simpl;
    repeat match goal with
           | |- context [includes ?m ?k] => destruct (includes m k)
           end;
    intros Hc Ht; try congruence; vm_compute in Ht; discriminate.
Qed.

Lemma catch_includes_description err :
  includes (generateContent_catch err) (description (category err)) = true.
Proof.
  unfold generateContent_catch, category, description.
  destruct err as [m|]; [destruct (includes m _)|].
  - apply includes_refl.
  - unfold msg_communication. rewrite app_nil_r. apply includes_app_l.
  - apply includes_refl.
Qed.

(** A submission whose call the remote model fails. *)
Lemma api_failure_turn w value api err :
  isLoading w = false ->
  trim value <> [] ->
  api (trim value) (systemInstruction w) = ApiThrows err ->
  run w (submit value ++
         [Settle (length (inflight w))
            (generateContent api (systemInstruction w) (trim value))])
  = Some (mkWorld (systemInstruction w)
            (messages w ++ [mkMessage USER (trim value);
                            mkMessage MODEL (generateContent_catch err)])
            false None [] (inflight w)).
Proof.
  intros Hl Hv Ha. rewrite run_app, (submit_dispatch w value Hl Hv).
  unfold run. rewrite settle_last. unfold generateContent. rewrite Ha. simpl.
  rewrite <- app_assoc. reflexivity.
Qed.

(** C4. A non-blank prompt submitted from an idle state, whose call the
    remote model fails with [err], still adds exactly two Messages: the
    user's, then an assistant Message whose text is the one
    [generateContent] maps [err] to, which contains the text of the
    category of [err] (and, for a communication failure, the message of
    [err]).  Errors of different categories give different texts, and
    the three category texts are pairwise different.  A client that
    rejects instead adds two Messages as well, the assistant's text
    containing the message of the [Error] it rejected with. *)
Theorem failing_turn :
  (forall (w : World) (value : jsstring)
          (api : jsstring -> jsstring -> ApiResult) (err : JsValue),
      isLoading w = false ->
      trim value <> [] ->
      api (trim value) (systemInstruction w) = ApiThrows err ->
      exists w' m,
        run w (submit value ++
               [Settle (length (inflight w))
                  (generateContent api (systemInstruction w) (trim value))])
        = Some w'
        /\ messages w' = messages w ++ [mkMessage USER (trim value); m]
        /\ role m = MODEL
        /\ text m = generateContent_catch err
        /\ includes (text m) (description (category err)) = true
        /\ match err with
           | JsError message =>
               category err = CommunicationFailure ->
               includes (text m) message = true
           | JsOther => True
           end)
  /\ (forall e1 e2 : JsValue,
        category e1 <> category e2 ->
        generateContent_catch e1 <> generateContent_catch e2)
  /\ (forall c1 c2 : FailureCategory,
        description c1 = description c2 -> c1 = c2)
  /\ (forall (w : World) (value : jsstring) (reason : JsValue),
        isLoading w = false ->
        trim value <> [] ->
        exists w' m,
          run w (submit value ++ [Settle (length (inflight w)) (Rejected reason)])
          = Some w'
          /\ messages w' = messages w ++ [mkMessage USER (trim value); m]
          /\ role m = MODEL
          /\ match reason with
             | JsError message => includes (text m) message = true
             | JsOther => True
             end).
Proof.
  split; [|split; [|split]].
  - intros w value api err Hl Hv Ha.
    eexists. exists (mkMessage MODEL (generateContent_catch err)).
    split; [exact (api_failure_turn w value api err Hl Hv Ha)|].
    simpl. repeat split; try reflexivity.
    + apply catch_includes_description.
    + destruct err as [m|]; [|exact I]. simpl.
      destruct (includes m _); [discriminate|]. intros _. apply includes_app_r.
  - exact category_texts_distinct.
  - intros [] []; intros H; try reflexivity; vm_compute in H; discriminate.
  - intros w value reason Hl Hv.
    destruct (turn w value (Rejected reason) Hl Hv) as (w' & R & M & _).
    exists w', (reply (Rejected reason)). split; [exact R|]. split; [exact M|].
    destruct reason as [m|]; (split; [reflexivity|]); [|exact I].
    apply includes_app_r.
Qed.

Lemma failing_turn_witness :
  let api := fun _ _ : jsstring => ApiThrows (JsError (lit "fetch failed")) in
  (exists w' m,
      run initial (submit (lit " X ") ++
                   [Settle 0%nat (generateContent api INITIAL_SYSTEM_PROMPT (lit "X"))])
      = Some w'
      /\ messages w' = [mkMessage USER (lit "X"); m]
      /\ role m = MODEL
      /\ text m =
         lit "An error occurred while communicating with the Gemini API: fetch failed"
      /\ includes (text m) (description CommunicationFailure) = true
      /\ (CommunicationFailure = CommunicationFailure ->
          includes (text m) (lit "fetch failed") = true))
  /\ generateContent_catch (JsError (lit "API key not valid")) <>
     generateContent_catch JsOther
  /\ (exists w' m,
        run initial (submit (lit " X ") ++
                     [Settle 0%nat (Rejected (JsError (lit "API key not valid")))])
        = Some w'
        /\ messages w' = [mkMessage USER (lit "X"); m]
        /\ role m = MODEL
        /\ includes (text m) (lit "API key not valid") = true).
Proof.
  intros api. split; [|split].
  - apply (proj1 failing_turn initial (lit " X ") api (JsError (lit "fetch failed")));
      [reflexivity | discriminate | reflexivity].
  - apply (proj1 (proj2 failing_turn)). discriminate.
  - apply (proj2 (proj2 (proj2 failing_turn)) initial (lit " X ")
             (JsError (lit "API key not valid")));
      [reflexivity | discriminate].
Defined.

(** ** The busy flag *)

Lemma consistent_busy_iff w :
  consistent w -> (isLoading w = true <-> inflight w <> []).
Proof.
  intros [[Hl Hf]|[Hl Hf]]; rewrite Hl, ?Hf; split; try congruence.
  intros _ E. rewrite E in Hf. discriminate.
Qed.

(** C5. In every state the event loop reaches from the initial one the
    busy flag is set exactly when a call is outstanding: it is raised by
    the event that starts the call, it stays up through every event that
    is not a settling, and the settling of a call lowers it whatever the
    outcome: fulfilled, rejected with an [Error], rejected with anything
    else (a client that throws). *)
Theorem busy_exactly_while_outstanding :
  (forall (evs : list Event) (w : World),
      run initial evs = Some w ->
      (isLoading w = true <-> inflight w <> []))
  /\ (forall (w : World) (value : jsstring),
        isLoading w = false -> trim value <> [] ->
        exists w', run w (submit value) = Some w'
                   /\ isLoading w' = true
                   /\ inflight w' =
                      inflight w ++ [mkCall (systemInstruction w) (trim value)])
  /\ (forall (evs : list Event) (w : World) (ev : Event) (w' : World),
        run initial evs = Some w -> isLoading w = true ->
        is_settle ev = false -> step w ev = Some w' ->
        isLoading w' = true)
  /\ (forall (w : World) (i : nat) (o : Outcome) (w' : World),
        step w (Settle i o) = Some w' -> isLoading w' = false).
Proof.
  split; [|split; [|split]].
  - intros evs w H. apply consistent_busy_iff.
    exact (run_consistent evs initial w initial_consistent H).
  - intros w value Hl Hv. eexists. split; [apply submit_dispatch; assumption|].
    split; reflexivity.
  - intros evs w ev w' Hr Hl Hs Hstep.
    pose proof (run_consistent evs initial w initial_consistent Hr) as Hw.
    pose proof (step_consistent w ev w' Hw Hstep) as Hw'.
    apply (consistent_busy_iff w') ; [exact Hw'|].
    apply (consistent_busy_iff w Hw) in Hl.
    destruct (step_keeps_inflight w ev w' Hs Hstep) as [started E].
    rewrite E. intros F. apply app_eq_nil in F as [F _]. contradiction.
  - intros w i o w'. simpl. destruct (inflight w !! i); [|discriminate].
    intros [= <-]. apply settle_isLoading.
Qed.

Lemma busy_exactly_while_outstanding_witness :
  let evs := submit (lit "Hi") in
  let pending :=
    mkWorld INITIAL_SYSTEM_PROMPT [mkMessage USER (lit "Hi")] true None []
            [mkCall INITIAL_SYSTEM_PROMPT (lit "Hi")] in
  let saved :=
    mkWorld (lit "Be terse.") [] true None []
            [mkCall INITIAL_SYSTEM_PROMPT (lit "Hi")] in
  let settled :=
    mkWorld (lit "Be terse.")
            [mkMessage MODEL (lit "Sorry, something went wrong: boom")]
            false (Some (lit "boom")) [] [] in
  (isLoading pending = true <-> inflight pending <> [])
  /\ (exists w', run initial evs = Some w'
                 /\ isLoading w' = true
                 /\ inflight w' = [mkCall INITIAL_SYSTEM_PROMPT (lit "Hi")])
  /\ isLoading saved = true
  /\ isLoading settled = false.
Proof.
  intros evs pending saved settled.
  assert (R : run initial evs = Some pending) by reflexivity.
  split; [|split; [|split]].
  - exact (proj1 busy_exactly_while_outstanding evs pending R).
  - apply (proj1 (proj2 busy_exactly_while_outstanding) initial (lit "Hi"));
      [reflexivity | discriminate].
  - apply (proj1 (proj2 (proj2 busy_exactly_while_outstanding))
             evs pending (Settings_onSave (lit "Be terse.")) saved R);
      reflexivity.
  - apply (proj2 (proj2 (proj2 busy_exactly_while_outstanding))
             saved 0%nat (Rejected (JsError (lit "boom"))) settled).
    reflexivity.
Defined.

(** ** Persona *)

(** C6. Saving [newInstruction], any string, the empty one included,
    from any state: the persona becomes [newInstruction] and the
    conversation becomes empty, whatever its length was. *)
Theorem save_replaces_persona_and_clears (w : World) (newInstruction : jsstring) :
  handleSave newInstruction handleSaveSettings =
    [SetSystemInstruction newInstruction; SetMessages []]
  /\ exists w',
       step w (Settings_onSave newInstruction) = Some w'
       /\ systemInstruction w' = newInstruction
       /\ messages w' = [].
Proof.
  split; [reflexivity|]. eexists. split; [reflexivity|]. split; reflexivity.
Qed.

(** A save issued while a call is outstanding leaves the busy flag up. *)
Lemma save_while_pending_stays_busy :
  let call := mkCall INITIAL_SYSTEM_PROMPT (lit "Hi") in
  let pending :=
    mkWorld INITIAL_SYSTEM_PROMPT [mkMessage USER (lit "Hi")] true None [] [call] in
  run initial (submit (lit "Hi")) = Some pending
  /\ step pending (Settings_onSave (lit "Be terse."))
     = Some (mkWorld (lit "Be terse.") [] true None [] [call])
  /\ ~ (forall (w : World) (s : jsstring) (w' : World),
          step w (Settings_onSave s) = Some w' ->
          isLoading w' = false /\ messages w' = []).
Proof.
  intros call pending. split; [reflexivity|]. split; [reflexivity|].
  intros H.
  destruct (H pending (lit "Be terse.") _ eq_refl) as [F _]. discriminate.
Qed.

(** C7 (amended). From every state a persona save succeeds, empties the
    conversation and puts the new persona in place; the busy flag and the
    outstanding calls are as they were: an idle state stays idle, a
    pending state stays pending. *)
Theorem save_clears_and_keeps_busy_flag (w : World) (newInstruction : jsstring) :
  exists w',
    step w (Settings_onSave newInstruction) = Some w'
    /\ messages w' = []
    /\ systemInstruction w' = newInstruction
    /\ isLoading w' = isLoading w
    /\ inflight w' = inflight w.
Proof.
  eexists. split; [reflexivity|]. repeat split; reflexivity.
Qed.

(** ** Calls are never cancelled *)

(** C8. No handler cancels a call: an outstanding call is still
    outstanding after every event that is not a settling, a persona save
    among them.  When an outstanding call settles, with any outcome, its
    assistant Message is appended to the conversation as it is then.  If
    a persona save came between the start of the call and its settling,
    the conversation then holds that Message alone. *)
Theorem settled_reply_is_always_appended :
  (forall (w : World) (ev : Event) (w' : World),
      is_settle ev = false -> step w ev = Some w' ->
      exists started, inflight w' = inflight w ++ started)
  /\ (forall (w : World) (i : nat) (c : Call) (o : Outcome),
        inflight w !! i = Some c ->
        exists w', step w (Settle i o) = Some w'
                   /\ messages w' = messages w ++ [reply o]
                   /\ inflight w' = delete i (inflight w))
  /\ (forall (w : World) (value newInstruction : jsstring) (o : Outcome),
        isLoading w = false -> trim value <> [] ->
        exists w',
          run w (submit value ++
                 [Settings_onSave newInstruction; Settle (length (inflight w)) o])
          = Some w'
          /\ messages w' = [reply o]
          /\ systemInstruction w' = newInstruction
          /\ inflight w' = inflight w).
Proof.
  split; [|split].
  - exact step_keeps_inflight.
  - intros w i c o H. simpl. rewrite H. eexists. split; [reflexivity|].
    rewrite settle_messages, settle_inflight. split; reflexivity.
  - intros w value newInstruction o Hl Hv.
    rewrite run_app, (submit_dispatch w value Hl Hv).
    rewrite run_cons, step_save. cbn [isLoading error prompt inflight].
    unfold run. rewrite settle_last. eexists. split; [reflexivity|].
    rewrite settle_messages, settle_inflight.
    destruct o as [t|[m|]]; repeat split; reflexivity.
Qed.

Lemma settled_reply_is_always_appended_witness :
  let call := mkCall INITIAL_SYSTEM_PROMPT (lit "Hi") in
  let pending :=
    mkWorld INITIAL_SYSTEM_PROMPT [mkMessage USER (lit "Hi")] true None [] [call] in
  let saved := mkWorld (lit "Be terse.") [] true None [] [call] in
  (exists started, inflight saved = inflight pending ++ started)
  /\ (exists w', step saved (Settle 0%nat (Fulfilled (lit "Hello!"))) = Some w'
                 /\ messages w' = [] ++ [mkMessage MODEL (lit "Hello!")]
                 /\ inflight w' = [])
  /\ (exists w',
        run initial (submit (lit "Hi") ++
                     [Settings_onSave (lit "Be terse.");
                      Settle 0%nat (Fulfilled (lit "Hello!"))])
        = Some w'
        /\ messages w' = [mkMessage MODEL (lit "Hello!")]
        /\ systemInstruction w' = lit "Be terse."
        /\ inflight w' = []).
Proof.
  intros call pending saved. split; [|split].
  - apply (proj1 settled_reply_is_always_appended
             pending (Settings_onSave (lit "Be terse.")) saved); reflexivity.
  - apply (proj1 (proj2 settled_reply_is_always_appended)
             saved 0%nat call (Fulfilled (lit "Hello!"))). reflexivity.
  - apply (proj2 (proj2 settled_reply_is_always_appended)
             initial (lit "Hi") (lit "Be terse.") (Fulfilled (lit "Hello!")));
      [reflexivity | discriminate].
Defined.

(** ** Failures and the banner *)

(** C10. [generateContent] always fulfils its promise: with the remote
    model's text, or, when the remote model throws, with one of the three
    texts of its [catch] block.  It never rejects, so the continuation of
    [handleSendMessage] takes the [try] path: it appends the returned
    text and lowers the flag, and never sets the banner. *)
Theorem generateContent_never_rejects
    (api : jsstring -> jsstring -> ApiResult) (persona userPrompt : jsstring) :
  (exists responseText,
      generateContent api persona userPrompt = Fulfilled responseText
      /\ handleSendMessage_settle (generateContent api persona userPrompt) =
         [SetMessages_append (mkMessage MODEL responseText); SetIsLoading false])
  /\ (forall reason, generateContent api persona userPrompt <> Rejected reason)
  /\ (forall w : World,
        error (apply_updates w
                 (handleSendMessage_settle (generateContent api persona userPrompt)))
        = error w)
  /\ (forall err : JsValue,
        api userPrompt persona = ApiThrows err ->
        generateContent api persona userPrompt = Fulfilled (generateContent_catch err)
        /\ (generateContent_catch err = msg_invalid_key
            \/ (exists message, generateContent_catch err = msg_communication message)
            \/ generateContent_catch err = msg_unknown)).
Proof.
  unfold generateContent.
  destruct (api userPrompt persona) as [response|err0]; (split; [|split; [|split]]).
  - eexists. split; reflexivity.
  - discriminate.
  - intros w. destruct w; reflexivity.
  - discriminate.
  - eexists. split; reflexivity.
  - discriminate.
  - intros w. destruct w; reflexivity.
  - intros err [= <-]. split; [reflexivity|].
    destruct err0 as [m|]; simpl; [destruct (includes m _)|]; eauto.
Qed.

Lemma generateContent_never_rejects_witness :
  let api := fun _ _ : jsstring => ApiThrows JsOther in
  generateContent api INITIAL_SYSTEM_PROMPT (lit "X") = Fulfilled msg_unknown
  /\ (generateContent_catch JsOther = msg_invalid_key
      \/ (exists message, generateContent_catch JsOther = msg_communication message)
      \/ generateContent_catch JsOther = msg_unknown).
Proof.
  intros api.
  apply (proj2 (proj2 (proj2
           (generateContent_never_rejects api INITIAL_SYSTEM_PROMPT (lit "X"))))
           JsOther).
  reflexivity.
Defined.

(** A failure of the remote model reaches the conversation but not the
    banner. *)
Lemma api_failure_sets_no_banner :
  let api := fun _ _ : jsstring => ApiThrows (JsError (lit "API key not valid")) in
  run initial (submit (lit "X") ++
               [Settle 0%nat (generateContent api INITIAL_SYSTEM_PROMPT (lit "X"))])
  = Some (mkWorld INITIAL_SYSTEM_PROMPT
            [mkMessage USER (lit "X"); mkMessage MODEL msg_invalid_key]
            false None [] [])
  /\ ~ (forall (w : World) (value : jsstring)
               (api : jsstring -> jsstring -> ApiResult) (err : JsValue) (w' : World),
          isLoading w = false -> trim value <> [] ->
          api (trim value) (systemInstruction w) = ApiThrows err ->
          run w (submit value ++
                 [Settle (length (inflight w))
                    (generateContent api (systemInstruction w) (trim value))])
          = Some w' ->
          error w' <> None).
Proof.
  intros api. split; [reflexivity|]. intros H.
  refine (H initial (lit "X") api (JsError (lit "API key not valid")) _
            eq_refl _ eq_refl eq_refl eq_refl).
  discriminate.
Qed.

(** C9 (amended). A failure of the remote model, of any of the three
    categories, is caught inside [generateContent] and becomes the text
    of an assistant Message; the banner stays empty.  The busy flag is
    down afterwards and the next non-blank submission is accepted: its
    user Message is appended and its call is started. *)
Theorem api_failure_becomes_message_only
    (w : World) (value : jsstring)
    (api : jsstring -> jsstring -> ApiResult) (err : JsValue) :
  isLoading w = false ->
  trim value <> [] ->
  api (trim value) (systemInstruction w) = ApiThrows err ->
  exists w',
    run w (submit value ++
           [Settle (length (inflight w))
              (generateContent api (systemInstruction w) (trim value))])
    = Some w'
    /\ messages w' =
       messages w ++ [mkMessage USER (trim value);
                      mkMessage MODEL (generateContent_catch err)]
    /\ error w' = None
    /\ isLoading w' = false
    /\ inflight w' = inflight w
    /\ forall next : jsstring,
         trim next <> [] ->
         exists w'',
           run w' (submit next) = Some w''
           /\ messages w'' = messages w' ++ [mkMessage USER (trim next)]
           /\ isLoading w'' = true
           /\ inflight w'' = inflight w' ++ [mkCall (systemInstruction w') (trim next)].
Proof.
  intros Hl Hv Ha. eexists.
  split; [exact (api_failure_turn w value api err Hl Hv Ha)|].
  cbn [messages error isLoading inflight systemInstruction].
  repeat (split; [reflexivity|]).
  intros next Hn. eexists. split; [apply submit_dispatch; [reflexivity|exact Hn]|].
  repeat split; reflexivity.
Qed.

Lemma api_failure_becomes_message_only_witness :
  let api := fun _ _ : jsstring => ApiThrows (JsError (lit "API key not valid")) in
  exists w',
    run initial (submit (lit "X") ++
                 [Settle 0%nat (generateContent api INITIAL_SYSTEM_PROMPT (lit "X"))])
    = Some w'
    /\ messages w' = [mkMessage USER (lit "X"); mkMessage MODEL msg_invalid_key]
    /\ error w' = None
    /\ isLoading w' = false
    /\ inflight w' = []
    /\ forall next : jsstring,
         trim next <> [] ->
         exists w'',
           run w' (submit next) = Some w''
           /\ messages w'' = messages w' ++ [mkMessage USER (trim next)]
           /\ isLoading w'' = true
           /\ inflight w'' = inflight w' ++ [mkCall (systemInstruction w') (trim next)].
Proof.
  intros api.
  apply (api_failure_becomes_message_only initial (lit "X") api
           (JsError (lit "API key not valid")));
    [reflexivity | discriminate | reflexivity].
Defined.

(** A client that rejects (or throws) is handled by the [catch] block of
    [handleSendMessage]: both the banner and the assistant Message carry
    the error's message, and the busy flag is lowered. *)
Lemma rejecting_client_sets_banner (w : World) (value message : jsstring) :
  isLoading w = false ->
  trim value <> [] ->
  run w (submit value ++
         [Settle (length (inflight w)) (Rejected (JsError message))])
  = Some (mkWorld (systemInstruction w)
            (messages w ++
             [mkMessage USER (trim value);
              mkMessage MODEL (lit "Sorry, something went wrong: " ++ message)])
            false (Some message) [] (inflight w)).
Proof.
  intros Hl Hv. rewrite run_app, (submit_dispatch w value Hl Hv).
  unfold run. rewrite settle_last. simpl. rewrite <- app_assoc. reflexivity.
Qed.

(** The scenario of a stub client raising a credential error. *)
Example credential_error_scenario :
  exists w',
    run initial (submit (lit "X") ++
                 [Settle 0%nat (Rejected (JsError (lit "API key not valid")))])
    = Some w'
    /\ (exists m, messages w' = [mkMessage USER (lit "X"); m]
                  /\ role m = MODEL
                  /\ includes (text m) (lit "not valid") = true).
Proof.
  eexists. split; [reflexivity|]. eexists. split; [reflexivity|].
  split; reflexivity.
Qed.

(** * Further properties of the code *)

(** ** Trimmed prompts *)

Lemma trimStart_fixed (s : jsstring) : trimStart (trimStart s) = trimStart s.
Proof.
  destruct (trimStart s) as [|c s'] eqn:E; [reflexivity|].
  apply trimStart_head in E. simpl. rewrite E. reflexivity.
Qed.

Lemma trimStart_split (s : jsstring) : exists p, s = p ++ trimStart s.
Proof.
  induction s as [|c s [p IH]]; [exists []; reflexivity|]. simpl.
  destruct (isWhiteSpace c).
  - exists (c :: p). simpl. congruence.
  - exists []. reflexivity.
Qed.

(** A non-empty beginning of a string that starts with no white space
    starts with none either. *)
Lemma trimStart_prefix (x y : jsstring) :
  x <> [] -> trimStart (x ++ y) = x ++ y -> trimStart x = x.
Proof.
  destruct x as [|h x]; [congruence|]. intros _ H.
  pose proof (trimStart_head ((h :: x) ++ y) h (x ++ y) H) as Hh.
  simpl. rewrite Hh. reflexivity.
Qed.

Lemma trim_idempotent (s : jsstring) : trim (trim s) = trim s.
Proof.
  unfold trim, trimEnd.
  pose proof (trimStart_fixed s) as Ha.
  set (a := trimStart s) in *.
  pose proof (trimStart_fixed (rev a)) as Hb.
  destruct (trimStart_split (rev a)) as [p Hp].
  set (b := trimStart (rev a)) in *.
  destruct b as [|c b'] eqn:E; [reflexivity|].
  assert (Hr : trimStart (rev (c :: b')) = rev (c :: b')).
  { apply (trimStart_prefix _ (rev p)).
    - intros F. apply (f_equal (@length _)) in F. rewrite length_rev in F.
      discriminate.
    - rewrite <- rev_app_distr, <- Hp, rev_involutive. exact Ha. }
  rewrite Hr, rev_involutive, Hb. reflexivity.
Qed.

Lemma trim_trimmed (s : jsstring) : trimmed (trim s).
Proof. apply trim_idempotent. Qed.

(** ** The event loop, case by case *)

Lemma run_invariant (P : World -> Prop) :
  (forall w ev w', P w -> step w ev = Some w' -> P w') ->
  forall evs w w', P w -> run w evs = Some w' -> P w'.
Proof.
  intros Hstep. induction evs as [|ev evs IH]; simpl; intros w w' Hw.
  - intros [= <-]. exact Hw.
  - destruct (step w ev) as [w1|] eqn:E; [|discriminate].
    apply IH. exact (Hstep w ev w1 Hw E).
Qed.

(** Submitting the form: nothing when the send button is disabled,
    otherwise the dispatch of [submit_dispatch]. *)
Lemma step_submit (w : World) :
  step w Form_onSubmit =
  Some (if PromptForm_button_disabled (prompt w) (isLoading w) then w
        else mkWorld (systemInstruction w)
               (messages w ++ [mkMessage USER (trim (prompt w))]) true None []
               (inflight w ++ [mkCall (systemInstruction w) (trim (prompt w))])).
Proof.
  destruct w as [s ms l e p fl]. unfold PromptForm_button_disabled. simpl.
  destruct l; simpl.
  - rewrite handleSubmit_busy. reflexivity.
  - destruct (trim p) as [|c t] eqn:E; simpl.
    + rewrite handleSubmit_blank by exact E. reflexivity.
    + rewrite handleSubmit_send by congruence. rewrite E. reflexivity.
Qed.

Lemma button_enabled (p : jsstring) (l : bool) :
  PromptForm_button_disabled p l = false <-> l = false /\ trim p <> [].
Proof.
  unfold PromptForm_button_disabled. rewrite orb_false_iff, negb_false_iff.
  rewrite truthy_true. tauto.
Qed.

(** The banner text a settling leaves. *)
Lemma settle_error (w : World) (o : Outcome) :
  error (apply_updates w (handleSendMessage_settle o)) =
  match o with
  | Fulfilled _ => error w
  | Rejected (JsError message) => Some message
  | Rejected JsOther => Some (lit "An unexpected error occurred.")
  end.
Proof. destruct w, o as [t|[m|]]; reflexivity. Qed.

Lemma settle_prompt (w : World) (o : Outcome) :
  prompt (apply_updates w (handleSendMessage_settle o)) = prompt w.
Proof. destruct w, o as [t|[m|]]; reflexivity. Qed.

Lemma settle_systemInstruction (w : World) (o : Outcome) :
  systemInstruction (apply_updates w (handleSendMessage_settle o)) = systemInstruction w.
Proof. destruct w, o as [t|[m|]]; reflexivity. Qed.

(** The settling of an outstanding call, field by field. *)
Lemma step_settle (w : World) (i : nat) (c : Call) (o : Outcome) :
  inflight w !! i = Some c ->
  step w (Settle i o) =
  Some (mkWorld (systemInstruction w) (messages w ++ [reply o]) false
          (match o with
           | Fulfilled _ => error w
           | Rejected (JsError message) => Some message
           | Rejected JsOther => Some (lit "An unexpected error occurred.")
           end)
          (prompt w) (delete i (inflight w))).
Proof.
  intros H. simpl. rewrite H. destruct w, o as [t|[m|]]; reflexivity.
Qed.

Lemma step_settle_inv (w : World) (i : nat) (o : Outcome) (w' : World) :
  step w (Settle i o) = Some w' -> exists c, inflight w !! i = Some c.
Proof. simpl. destruct (inflight w !! i) as [c|]; [eauto|discriminate]. Qed.

(** ** Invariants of the conversation *)

(** X1. Every user Message of a reachable state, and the prompt of
    every outstanding call, is non-empty and is left as it is by [trim]:
    what [handleSubmit] hands on has no white space at either end. *)
Theorem submitted_prompts_are_trimmed (evs : list Event) (w : World) :
  run initial evs = Some w ->
  Forall (fun m => role m = USER -> text m <> [] /\ trimmed (text m)) (messages w)
  /\ Forall (fun c => call_userPrompt c <> [] /\ trimmed (call_userPrompt c))
       (inflight w).
Proof.
  apply (run_invariant (fun w =>
    Forall (fun m => role m = USER -> text m <> [] /\ trimmed (text m)) (messages w)
    /\ Forall (fun c => call_userPrompt c <> [] /\ trimmed (call_userPrompt c))
         (inflight w))); [|split; constructor].
  clear. intros w ev w' [Hm Hc]. destruct ev as [value| |s|i o].
  - intros [= <-]. destruct w. split; assumption.
  - rewrite step_submit. intros [= <-].
    destruct (PromptForm_button_disabled _ _) eqn:E; [split; assumption|].
    apply button_enabled in E as [_ Hne]. simpl.
    split; (apply Forall_app; split; [assumption|]); repeat constructor;
      simpl; auto using trim_trimmed.
  - intros [= <-]. destruct w. split; [constructor | assumption].
  - intros H. destruct (step_settle_inv w i o w' H) as [c Hi].
    rewrite (step_settle w i c o Hi) in H. injection H as <-. simpl. split.
    + apply Forall_app. split; [assumption|]. constructor; [|constructor].
      destruct o as [t|[m|]]; simpl; intros F; discriminate F.
    + apply Forall_delete. assumption.
Qed.

Lemma submitted_prompts_are_trimmed_witness :
  let w :=
    mkWorld INITIAL_SYSTEM_PROMPT [mkMessage USER (lit "Hi  there")] true None []
            [mkCall INITIAL_SYSTEM_PROMPT (lit "Hi  there")] in
  Forall (fun m => role m = USER -> text m <> [] /\ trimmed (text m)) (messages w)
  /\ Forall (fun c => call_userPrompt c <> [] /\ trimmed (call_userPrompt c))
       (inflight w).
Proof.
  intros w.
  apply (submitted_prompts_are_trimmed (submit (lit "  Hi  there ")) w).
  reflexivity.
Defined.

Lemma alternates_snoc (ms : list Message) (m : Message) :
  alternates (ms ++ [m]) =
  alternates ms
  && match last_role ms with
     | Some r => negb (role_eqb r (role m))
     | None => true
     end.
Proof.
  induction ms as [|a ms IH]; [reflexivity|].
  destruct ms as [|b ms].
  - simpl. rewrite andb_true_r. reflexivity.
  - change (alternates ((a :: b :: ms) ++ [m]))
      with (negb (role_eqb (role a) (role b)) && alternates ((b :: ms) ++ [m])).
    rewrite IH.
    change (alternates (a :: b :: ms))
      with (negb (role_eqb (role a) (role b)) && alternates (b :: ms)).
    change (last_role (a :: b :: ms)) with (last_role (b :: ms)).
    rewrite andb_assoc. reflexivity.
Qed.

Lemma last_role_snoc (ms : list Message) (m : Message) :
  last_role (ms ++ [m]) = Some (role m).
Proof. unfold last_role. rewrite last_snoc. reflexivity. Qed.

(** X2. In every reachable state the conversation alternates: no two
    neighbouring Messages have the same role.  While a call is
    outstanding the last Message is not the assistant's, and while none
    is the last Message is not the user's. *)
Theorem conversation_alternates (evs : list Event) (w : World) :
  run initial evs = Some w ->
  alternates (messages w) = true
  /\ (isLoading w = true -> last_role (messages w) <> Some MODEL)
  /\ (isLoading w = false -> last_role (messages w) <> Some USER).
Proof.
  intros H.
  cut (consistent w /\ alternates (messages w) = true
       /\ last_role (messages w) <> Some (if isLoading w then MODEL else USER)).
  { intros (_ & Ha & Hl). split; [exact Ha|]. split; intros E; rewrite E in Hl; exact Hl. }
  revert H.
  apply (run_invariant (fun w =>
    consistent w /\ alternates (messages w) = true
    /\ last_role (messages w) <> Some (if isLoading w then MODEL else USER)));
    [|split; [exact initial_consistent | split; [reflexivity | discriminate]]].
  clear. intros w ev w' (Hc & Ha & Hl) Hstep.
  split; [exact (step_consistent w ev w' Hc Hstep)|].
  destruct ev as [value| |s|i o].
  - injection Hstep as <-. destruct w. split; assumption.
  - rewrite step_submit in Hstep. injection Hstep as <-.
    destruct (PromptForm_button_disabled _ _) eqn:E; [split; assumption|].
    apply button_enabled in E as [El _]. rewrite El in Hl. simpl.
    rewrite alternates_snoc, last_role_snoc, Ha. simpl. split; [|discriminate].
    destruct (last_role (messages w)) as [[|]|]; try reflexivity. congruence.
  - injection Hstep as <-. destruct w. simpl. split; [reflexivity|].
    destruct isLoading0; discriminate.
  - destruct (step_settle_inv w i o w' Hstep) as [c Hi].
    rewrite (step_settle w i c o Hi) in Hstep. injection Hstep as <-. simpl.
    rewrite alternates_snoc, last_role_snoc, Ha.
    assert (El : isLoading w = true).
    { destruct Hc as [[El _]|[_ Hf]]; [exact El|]. rewrite Hf in Hi. discriminate. }
    rewrite El in Hl.
    assert (Hr : role (reply o) = MODEL) by (destruct o as [t|[m|]]; reflexivity).
    rewrite Hr. simpl. split; [|discriminate].
    destruct (last_role (messages w)) as [[|]|]; try reflexivity. congruence.
Qed.

Lemma conversation_alternates_witness :
  let w :=
    mkWorld INITIAL_SYSTEM_PROMPT
      [mkMessage USER (lit "a"); mkMessage MODEL (lit "b"); mkMessage USER (lit "c")]
      true None [] [mkCall INITIAL_SYSTEM_PROMPT (lit "c")] in
  alternates (messages w) = true
  /\ (isLoading w = true -> last_role (messages w) <> Some MODEL)
  /\ (isLoading w = false -> last_role (messages w) <> Some USER).
Proof.
  intros w.
  apply (conversation_alternates
           (submit (lit "a") ++ [Settle 0%nat (Fulfilled (lit "b"))] ++ submit (lit "c")) w).
  reflexivity.
Defined.

Lemma step_appends (w : World) (ev : Event) (w' : World) :
  is_save ev = false -> step w ev = Some w' ->
  exists added, messages w' = messages w ++ added /\ (length added <= 1)%nat.
Proof.
  destruct ev as [value| |s|i o]; simpl is_save; try discriminate; intros _ H.
  - injection H as <-. exists []. destruct w. simpl. rewrite app_nil_r. auto.
  - rewrite step_submit in H. injection H as <-.
    destruct (PromptForm_button_disabled _ _).
    + exists []. rewrite app_nil_r. auto.
    + eexists. split; [reflexivity|]. simpl. lia.
  - destruct (step_settle_inv w i o w' H) as [c Hi].
    rewrite (step_settle w i c o Hi) in H. injection H as <-.
    eexists. split; [reflexivity|]. simpl. lia.
Qed.

(** X3. Only a persona save removes Messages: over any sequence of
    events without a save the conversation at the start is kept as the
    beginning of the conversation at the end, and at most one Message is
    added per event. *)
Theorem conversation_grows_unless_saved
    (evs : list Event) (w w' : World) :
  Forall (fun ev => is_save ev = false) evs ->
  run w evs = Some w' ->
  exists added,
    messages w' = messages w ++ added /\ (length added <= length evs)%nat.
Proof.
  revert w. induction evs as [|ev evs IH]; intros w Hs H.
  - injection H as <-. exists []. rewrite app_nil_r. auto.
  - apply Forall_cons in Hs as [Hev Hs]. rewrite run_cons in H.
    destruct (step w ev) as [w1|] eqn:E; [|discriminate].
    destruct (step_appends w ev w1 Hev E) as (a1 & M1 & L1).
    destruct (IH w1 Hs H) as (a2 & M2 & L2).
    exists (a1 ++ a2). rewrite M2, M1, <- app_assoc. split; [reflexivity|].
    rewrite length_app. simpl. lia.
Qed.

Lemma conversation_grows_unless_saved_witness :
  exists added,
    [mkMessage USER (lit "a"); mkMessage MODEL (lit "b")] =
    messages initial ++ added
    /\ (length added <= 4)%nat.
Proof.
  apply (conversation_grows_unless_saved
           (submit (lit "a") ++ [Form_onSubmit; Settle 0%nat (Fulfilled (lit "b"))])
           initial
           (mkWorld INITIAL_SYSTEM_PROMPT
              [mkMessage USER (lit "a"); mkMessage MODEL (lit "b")]
              false None [] [])).
  - repeat constructor.
  - reflexivity.
Defined.

(** X4. Turns compose: a sequence of turns (a non-blank prompt typed
    and submitted, then its call settled, with any outcome) run from an
    idle state appends, turn after turn and in order, the user Message
    with the trimmed prompt and the assistant Message of the outcome; the
    conversation is longer by twice the number of turns and the state is
    idle again. *)
Theorem turns_compose (turns : list (jsstring * Outcome)) (w : World) :
  isLoading w = false ->
  Forall (fun t => trim (fst t) <> []) turns ->
  exists w',
    run w (turns_events (length (inflight w)) turns) = Some w'
    /\ messages w' = messages w ++ turns_messages turns
    /\ (length (messages w') = length (messages w) + 2 * length turns)%nat
    /\ isLoading w' = false
    /\ inflight w' = inflight w.
Proof.
  revert w. induction turns as [|[value o] turns IH]; intros w Hl Ht.
  - exists w. simpl. rewrite app_nil_r. repeat split; try reflexivity; try assumption; lia.
  - apply Forall_cons in Ht as [Hv Ht]. simpl in Hv.
    destruct (turn w value o Hl Hv) as (w1 & R1 & M1 & L1 & F1).
    destruct (IH w1 L1 Ht) as (w' & R & M & N & L & F).
    exists w'.
    change (turns_events (length (inflight w)) ((value, o) :: turns))
      with ((submit value ++ [Settle (length (inflight w)) o])
            ++ turns_events (length (inflight w)) turns).
    change (turns_messages ((value, o) :: turns))
      with ([mkMessage USER (trim value); reply o] ++ turns_messages turns).
    rewrite run_app, R1, <- F1.
    split; [exact R|].
    split; [rewrite M, M1, <- app_assoc; reflexivity|].
    split; [rewrite N, M1, !length_app; simpl; lia|].
    split; [exact L | congruence].
Qed.

Lemma turns_compose_witness :
  exists w',
    run initial
      (turns_events 0 [(lit " a ", Fulfilled (lit "b"));
                       (lit "c", Rejected (JsError (lit "d")))]) = Some w'
    /\ messages w' =
       [mkMessage USER (lit "a"); mkMessage MODEL (lit "b");
        mkMessage USER (lit "c");
        mkMessage MODEL (lit "Sorry, something went wrong: d")]
    /\ (length (messages w') = 0 + 2 * 2)%nat
    /\ isLoading w' = false
    /\ inflight w' = [].
Proof.
  apply (turns_compose [(lit " a ", Fulfilled (lit "b"));
                        (lit "c", Rejected (JsError (lit "d")))] initial).
  - reflexivity.
  - repeat constructor; discriminate.
Defined.

(** ** The send button *)

(** X5. The send button is disabled exactly when [handleSubmit] would
    do nothing.  Submitting with the button disabled leaves the state as
    it is; with the button enabled it appends the user Message, starts
    one call, empties the box and thereby disables both the input and
    the button. *)
Theorem send_button_matches_handler (w : World) :
  (PromptForm_button_disabled (prompt w) (isLoading w) = true <->
   handleSubmit (prompt w) (isLoading w)
     (handleSendMessage (isLoading w) (systemInstruction w)) = nothing)
  /\ (PromptForm_button_disabled (prompt w) (isLoading w) = true ->
      step w Form_onSubmit = Some w)
  /\ (PromptForm_button_disabled (prompt w) (isLoading w) = false ->
      exists w',
        step w Form_onSubmit = Some w'
        /\ messages w' = messages w ++ [mkMessage USER (trim (prompt w))]
        /\ inflight w' = inflight w ++ [mkCall (systemInstruction w) (trim (prompt w))]
        /\ prompt w' = []
        /\ PromptForm_input_disabled (isLoading w') = true
        /\ PromptForm_button_disabled (prompt w') (isLoading w') = true).
Proof.
  split; [|split].
  - destruct (PromptForm_button_disabled _ _) eqn:E.
    + split; [intros _|reflexivity].
      unfold PromptForm_button_disabled in E. apply orb_true_iff in E as [E|E].
      * rewrite E. apply handleSubmit_busy.
      * apply negb_true_iff, truthy_false in E. apply handleSubmit_blank, E.
    + split; [discriminate|]. apply button_enabled in E as [El Ep].
      rewrite El, handleSubmit_send by exact Ep. discriminate.
  - intros E. rewrite step_submit, E. reflexivity.
  - intros E. rewrite step_submit, E. eexists. split; [reflexivity|].
    repeat split; reflexivity.
Qed.

Lemma send_button_matches_handler_witness :
  let w := mkWorld INITIAL_SYSTEM_PROMPT [] false None (lit " Hi ") [] in
  exists w',
    step w Form_onSubmit = Some w'
    /\ messages w' = [mkMessage USER (lit "Hi")]
    /\ inflight w' = [mkCall INITIAL_SYSTEM_PROMPT (lit "Hi")]
    /\ prompt w' = []
    /\ PromptForm_input_disabled (isLoading w') = true
    /\ PromptForm_button_disabled (prompt w') (isLoading w') = true.
Proof.
  intros w. apply (proj2 (proj2 (send_button_matches_handler w))). reflexivity.
Defined.

(** ** The error banner *)

(** A turn, field by field. *)
Lemma turn_exact (w : World) (value : jsstring) (o : Outcome) :
  isLoading w = false -> trim value <> [] ->
  run w (submit value ++ [Settle (length (inflight w)) o]) =
  Some (mkWorld (systemInstruction w)
          (messages w ++ [mkMessage USER (trim value); reply o]) false
          (match o with
           | Fulfilled _ => None
           | Rejected (JsError message) => Some message
           | Rejected JsOther => Some (lit "An unexpected error occurred.")
           end)
          [] (inflight w)).
Proof.
  intros Hl Hv. rewrite run_app, (submit_dispatch w value Hl Hv).
  unfold run. rewrite settle_last.
  destruct o as [t|[m|]]; simpl; rewrite <- app_assoc; reflexivity.
Qed.

(** X6. The banner text changes in two places only: an accepted
    submission empties it and a rejected call sets it.  Typing, a
    refused submission, a fulfilled call and a persona save leave it as
    it is, so a save empties the conversation but not the banner. *)
Theorem banner_changes_only_on_submit_and_reject
    (w : World) (ev : Event) (w' : World) :
  step w ev = Some w' ->
  match ev with
  | Form_onSubmit =>
      error w' =
      if PromptForm_button_disabled (prompt w) (isLoading w) then error w else None
  | Settle _ (Rejected (JsError message)) => error w' = Some message
  | Settle _ (Rejected JsOther) => error w' = Some (lit "An unexpected error occurred.")
  | _ => error w' = error w
  end.
Proof.
  destruct ev as [value| |s|i o]; intros H.
  - injection H as <-. destruct w; reflexivity.
  - rewrite step_submit in H. injection H as <-.
    destruct (PromptForm_button_disabled _ _); reflexivity.
  - injection H as <-. destruct w; reflexivity.
  - destruct (step_settle_inv w i o w' H) as [c Hi].
    rewrite (step_settle w i c o Hi) in H. injection H as <-.
    destruct o as [t|[m|]]; reflexivity.
Qed.

Lemma banner_changes_only_on_submit_and_reject_witness :
  let w := mkWorld INITIAL_SYSTEM_PROMPT [mkMessage USER (lit "a")] false
             (Some (lit "boom")) [] [] in
  error (mkWorld (lit "Be terse.") [] false (Some (lit "boom")) [] []) = error w.
Proof.
  intros w.
  apply (banner_changes_only_on_submit_and_reject w (Settings_onSave (lit "Be terse."))).
  reflexivity.
Defined.

(** X7. After a turn whose call is rejected the banner text is set, but
    the banner is rendered only if that text is non-empty: it is missing
    exactly when the call was rejected with an [Error] whose message is
    empty, while the conversation shows the apology all the same. *)
Theorem empty_error_message_hides_banner
    (w : World) (value : jsstring) (reason : JsValue) :
  isLoading w = false ->
  trim value <> [] ->
  exists w',
    run w (submit value ++ [Settle (length (inflight w)) (Rejected reason)]) = Some w'
    /\ error w' <> None
    /\ (App_banner (error w') = None <-> reason = JsError [])
    /\ exists m, last (messages w') = Some m
                 /\ role m = MODEL
                 /\ startsWith (text m) (lit "Sorry, something went wrong: ") = true.
Proof.
  intros Hl Hv. eexists. split; [exact (turn_exact w value (Rejected reason) Hl Hv)|].
  cbn [error messages]. split; [destruct reason; discriminate|]. split.
  - destruct reason as [[|c m]|]; simpl; split; congruence.
  - exists (reply (Rejected reason)). split.
    + change [mkMessage USER (trim value); reply (Rejected reason)]
        with ([mkMessage USER (trim value)] ++ [reply (Rejected reason)]).
      rewrite app_assoc. apply last_snoc.
    + destruct reason as [m|]; split; try reflexivity; apply startsWith_app.
Qed.

Lemma empty_error_message_hides_banner_witness :
  exists w',
    run initial (submit (lit "X") ++ [Settle 0%nat (Rejected (JsError []))]) = Some w'
    /\ error w' <> None
    /\ (App_banner (error w') = None <-> JsError [] = JsError [])
    /\ exists m, last (messages w') = Some m
                 /\ role m = MODEL
                 /\ startsWith (text m) (lit "Sorry, something went wrong: ") = true.
Proof.
  apply (empty_error_message_hides_banner initial (lit "X") (JsError []));
    [reflexivity | discriminate].
Defined.

(** ** The application with [generateContent] as its client *)

Lemma happenings_app (w : World) (hs1 hs2 : list Happening) :
  happenings w (hs1 ++ hs2) =
  match happenings w hs1 with
  | Some w' => happenings w' hs2
  | None => None
  end.
Proof.
  revert w. induction hs1 as [|h hs1 IH]; intros w; simpl; [reflexivity|].
  destruct (happen w h); [apply IH | reflexivity].
Qed.

Lemma happenings_submit (w : World) (value : jsstring) :
  happenings w [Typed value; Submitted] = run w (submit value).
Proof. reflexivity. Qed.

Lemma generateContent_fulfils
    (remote : jsstring -> jsstring -> ApiResult) (persona userPrompt : jsstring) :
  exists responseText, generateContent remote persona userPrompt = Fulfilled responseText.
Proof. unfold generateContent. destruct (remote userPrompt persona); eauto. Qed.

(** What happens to the page is an event of the loop, and never the
    rejection of a call. *)
Lemma happen_step (w : World) (h : Happening) (w' : World) :
  happen w h = Some w' ->
  exists ev, step w ev = Some w' /\ forall i r, ev <> Settle i (Rejected r).
Proof.
  destruct h as [value| |s|i remote]; unfold happen.
  - exists (Input_onChange value). split; [assumption|discriminate].
  - exists Form_onSubmit. split; [assumption|discriminate].
  - exists (Settings_onSave s). split; [assumption|discriminate].
  - destruct (inflight w !! i) as [c|]; [|discriminate].
    intros H. eexists. split; [exact H|].
    destruct (generateContent_fulfils remote (call_systemInstruction c)
                (call_userPrompt c)) as [t E].
    rewrite E. discriminate.
Qed.

Lemma step_keeps_no_error (w : World) (ev : Event) (w' : World) :
  error w = None -> step w ev = Some w' ->
  (forall i r, ev <> Settle i (Rejected r)) -> error w' = None.
Proof.
  intros Ee H N. destruct ev as [value| |s|i o].
  - injection H as <-. destruct w; exact Ee.
  - rewrite step_submit in H. injection H as <-.
    destruct (PromptForm_button_disabled _ _); [exact Ee|reflexivity].
  - injection H as <-. destruct w; exact Ee.
  - destruct (step_settle_inv w i o w' H) as [c Hi].
    rewrite (step_settle w i c o Hi) in H. injection H as <-.
    destruct o as [t|r]; [exact Ee|]. exfalso. exact (N i r eq_refl).
Qed.

Lemma run_snoc (w : World) (evs : list Event) (ev : Event) (w1 w' : World) :
  run w evs = Some w1 -> step w1 ev = Some w' -> run w (evs ++ [ev]) = Some w'.
Proof. intros R S. rewrite run_app, R. simpl. rewrite S. reflexivity. Qed.

(** X8. With [generateContent] as the client the banner never shows:
    in every state the page reaches from the initial one, whatever the
    remote model does, [error] is [null] and no banner is rendered.
    Every such state is a state of the event loop, reached without any
    call being rejected. *)
Theorem banner_never_shown_with_generateContent
    (hs : list Happening) (w : World) :
  happenings initial hs = Some w ->
  error w = None
  /\ App_banner (error w) = None
  /\ exists evs,
       run initial evs = Some w
       /\ Forall (fun ev => forall i r, ev <> Settle i (Rejected r)) evs.
Proof.
  intros H.
  cut (error w = None
       /\ exists evs, run initial evs = Some w
            /\ Forall (fun ev => forall i r, ev <> Settle i (Rejected r)) evs).
  { intros [E R]. rewrite E. auto. }
  revert w H. induction hs as [|h hs IH] using rev_ind; intros w H.
  - injection H as <-. split; [reflexivity|]. exists []. split; [reflexivity|constructor].
  - rewrite happenings_app in H.
    destruct (happenings initial hs) as [w1|] eqn:E1; [|discriminate].
    destruct (IH w1 eq_refl) as (Ee & evs & R & F).
    simpl in H. destruct (happen w1 h) as [w2|] eqn:E2; [|discriminate].
    injection H as <-.
    destruct (happen_step w1 h w2 E2) as (ev & S & N). split.
    + exact (step_keeps_no_error w1 ev w2 Ee S N).
    + exists (evs ++ [ev]). split; [exact (run_snoc _ _ _ _ _ R S)|].
      apply Forall_app. split; [exact F|]. constructor; [exact N|constructor].
Qed.

Lemma banner_never_shown_with_generateContent_witness :
  let w :=
    mkWorld INITIAL_SYSTEM_PROMPT
      [mkMessage USER (lit "X"); mkMessage MODEL msg_unknown] false None [] [] in
  error w = None
  /\ App_banner (error w) = None
  /\ exists evs,
       run initial evs = Some w
       /\ Forall (fun ev => forall i r, ev <> Settle i (Rejected r)) evs.
Proof.
  intros w.
  apply (banner_never_shown_with_generateContent
           [Typed (lit "X"); Submitted; Answered 0%nat (fun _ _ => ApiThrows JsOther)] w).
  reflexivity.
Defined.

Lemma save_while_outstanding
    (w : World) (value newInstruction : jsstring)
    (remote : jsstring -> jsstring -> ApiResult) :
  isLoading w = false ->
  trim value <> [] ->
  happenings w [Typed value; Submitted; Saved newInstruction;
                Answered (length (inflight w)) remote] =
  Some (apply_updates
          (mkWorld newInstruction [] true None [] (inflight w))
          (handleSendMessage_settle
             (generateContent remote (systemInstruction w) (trim value)))).
Proof.
  intros Hl Hv.
  change [Typed value; Submitted; Saved newInstruction;
          Answered (length (inflight w)) remote]
    with ([Typed value; Submitted]
          ++ [Saved newInstruction; Answered (length (inflight w)) remote]).
  rewrite happenings_app, happenings_submit, (submit_dispatch w value Hl Hv).
  cbn [happenings happen]. rewrite step_save. cbn [inflight].
  rewrite list_lookup_middle by reflexivity.
  cbn [call_systemInstruction call_userPrompt isLoading error prompt].
  rewrite settle_last. reflexivity.
Qed.

(** X9. A call keeps the persona it was started with.  If a persona is
    saved while the call is outstanding, the reply that lands in the
    emptied conversation is what [generateContent] returns for the old
    persona; the new persona is used from the next submission on. *)
Theorem reply_uses_persona_at_submission
    (w : World) (value newInstruction : jsstring)
    (remote : jsstring -> jsstring -> ApiResult) :
  isLoading w = false ->
  trim value <> [] ->
  exists w' responseText,
    happenings w [Typed value; Submitted; Saved newInstruction;
                  Answered (length (inflight w)) remote] = Some w'
    /\ generateContent remote (systemInstruction w) (trim value) = Fulfilled responseText
    /\ messages w' = [mkMessage MODEL responseText]
    /\ systemInstruction w' = newInstruction
    /\ forall next : jsstring,
         trim next <> [] ->
         exists w'',
           happenings w' [Typed next; Submitted] = Some w''
           /\ inflight w'' = inflight w ++ [mkCall newInstruction (trim next)].
Proof.
  intros Hl Hv.
  destruct (generateContent_fulfils remote (systemInstruction w) (trim value))
    as [t E].
  rewrite (save_while_outstanding w value newInstruction remote Hl Hv), E.
  eexists. exists t. split; [reflexivity|]. split; [reflexivity|].
  split; [reflexivity|]. split; [reflexivity|].
  intros next Hn. rewrite happenings_submit. eexists.
  split; [apply submit_dispatch; [reflexivity|exact Hn]|]. reflexivity.
Qed.

Lemma reply_uses_persona_at_submission_witness :
  let remote := fun contents persona : jsstring => ApiReturns (mkResponse persona) in
  exists w' responseText,
    happenings initial [Typed (lit "Hi"); Submitted; Saved (lit "Be terse.");
                        Answered 0%nat remote] = Some w'
    /\ generateContent remote INITIAL_SYSTEM_PROMPT (lit "Hi") = Fulfilled responseText
    /\ messages w' = [mkMessage MODEL responseText]
    /\ systemInstruction w' = lit "Be terse."
    /\ forall next : jsstring,
         trim next <> [] ->
         exists w'',
           happenings w' [Typed next; Submitted] = Some w''
           /\ inflight w'' = [] ++ [mkCall (lit "Be terse.") (trim next)].
Proof.
  intros remote.
  apply (reply_uses_persona_at_submission initial (lit "Hi") (lit "Be terse.") remote);
    [reflexivity | discriminate].
Defined.

(** ** Saving twice *)

(** X10. Of two persona saves in a row only the second counts, so
    saving the same text twice is the same as saving it once; and saving
    the persona that is already in place changes nothing exactly when the
    conversation is empty: otherwise it empties it. *)
Theorem last_save_wins (w : World) (s1 s2 : jsstring) :
  run w [Settings_onSave s1; Settings_onSave s2] = run w [Settings_onSave s2]
  /\ (step w (Settings_onSave (systemInstruction w)) = Some w <-> messages w = []).
Proof.
  split; [reflexivity|]. rewrite step_save. destruct w as [s ms l e p fl]. simpl.
  split.
  - intros [= <-]. reflexivity.
  - intros ->. reflexivity.
Qed.

Lemma last_save_wins_witness :
  let w := mkWorld (lit "Be terse.") [] true None (lit "draft")
             [mkCall INITIAL_SYSTEM_PROMPT (lit "Hi")] in
  step w (Settings_onSave (systemInstruction w)) = Some w.
Proof.
  intros w. apply (proj2 (last_save_wins w [] [])). reflexivity.
Defined.

(** ** Sharing a Message *)

Ltac bounds :=
  unfold isUnreserved, isLeadSurrogate, isTrailSurrogate, is_code_unit in *;
  repeat match goal with
         | H : _ && _ = true |- _ => apply andb_true_iff in H as [? ?]
         | H : _ || _ = true |- _ => apply orb_true_iff in H as [?|?]
         | H : _ && _ = false |- _ => apply andb_false_iff in H as [?|?]
         | H : _ || _ = false |- _ => apply orb_false_iff in H as [? ?]
         | H : (_ <=? _) = true |- _ => apply N.leb_le in H
         | H : (_ <=? _) = false |- _ => apply N.leb_gt in H
         | H : (_ <? _) = true |- _ => apply N.ltb_lt in H
         | H : (_ <? _) = false |- _ => apply N.ltb_ge in H
         | H : (_ =? _) = true |- _ => apply N.eqb_eq in H
         | H : (_ =? _) = false |- _ => apply N.eqb_neq in H
         end.

Lemma surrogate_not_unreserved (c : char16) :
  isLeadSurrogate c = true \/ isTrailSurrogate c = true -> isUnreserved c = false.
Proof.
  intros H. destruct (isUnreserved c) eqn:E; [exfalso|reflexivity].
  destruct H as [H|H]; bounds; lia.
Qed.

Lemma lead_not_trail (c : char16) :
  isLeadSurrogate c = true -> isTrailSurrogate c = false.
Proof.
  intros H. destruct (isTrailSurrogate c) eqn:E; [exfalso|reflexivity].
  bounds; lia.
Qed.

Lemma hexDigit_unreserved (n : N) : n < 16 -> isUnreserved (hexDigit n) = true.
Proof.
  intros H. unfold hexDigit, isUnreserved.
  destruct (n <? 10) eqn:E; bounds.
  - assert (D : (48 <=? 48 + n) && (48 + n <=? 57) = true)
      by (apply andb_true_iff; split; apply N.leb_le; lia).
    rewrite D, orb_true_r. reflexivity.
  - assert (D : (65 <=? 55 + n) && (55 + n <=? 90) = true)
      by (apply andb_true_iff; split; apply N.leb_le; lia).
    rewrite D. reflexivity.
Qed.

Lemma percent_safe (octet : N) :
  octet < 256 -> Forall (fun c => isUnreserved c = true \/ c = 37) (percent octet).
Proof.
  intros H. unfold percent.
  apply Forall_cons. split; [right; reflexivity|].
  apply Forall_cons. split.
  { left. apply hexDigit_unreserved. apply N.Div0.div_lt_upper_bound. lia. }
  apply Forall_cons. split; [|apply Forall_nil; exact I].
  left. apply hexDigit_unreserved. apply N.mod_upper_bound. lia.
Qed.

Lemma utf8_octets (cp : N) : cp < 1114112 -> Forall (fun o => o < 256) (utf8 cp).
Proof.
  intros H. unfold utf8.
  assert (M : forall x, 128 + x mod 64 < 256).
  { intros x. pose proof (N.mod_upper_bound x 64). lia. }
  destruct (cp <? 128) eqn:E1; [|destruct (cp <? 2048) eqn:E2;
                                  [|destruct (cp <? 65536) eqn:E3]];
    bounds; repeat (apply Forall_cons; split); try (apply Forall_nil; exact I);
    try apply M.
  - lia.
  - assert (cp / 64 < 32) by (apply N.Div0.div_lt_upper_bound; lia). lia.
  - assert (cp / 4096 < 16) by (apply N.Div0.div_lt_upper_bound; lia). lia.
  - assert (cp / 262144 < 5) by (apply N.Div0.div_lt_upper_bound; lia). lia.
Qed.

Lemma escape_safe (cp : N) :
  cp < 1114112 -> Forall (fun c => isUnreserved c = true \/ c = 37) (escape cp).
Proof.
  intros H. unfold escape. apply utf8_octets in H.
  induction H as [|o os Ho _ IH]; [constructor|].
  change (flat_map percent (o :: os)) with (percent o ++ flat_map percent os).
  apply Forall_app. split; [apply percent_safe, Ho | exact IH].
Qed.

Lemma encodeURIComponent_safe_upto (n : nat) : forall s out : jsstring,
  (length s <= n)%nat ->
  Forall is_code_unit s ->
  encodeURIComponent s = Some out ->
  Forall (fun c => isUnreserved c = true \/ c = 37) out.
Proof.
  induction n as [|n IH]; intros s out Hn Hs H.
  - destruct s; [|simpl in Hn; lia]. injection H as <-. constructor.
  - destruct s as [|c rest]; [injection H as <-; constructor|].
    apply Forall_cons in Hs as [Hc Hrest]. simpl in Hn, H.
    destruct (isUnreserved c) eqn:U.
    { destruct (encodeURIComponent rest) as [o|] eqn:E; [|discriminate].
      injection H as <-. constructor; [left; exact U|].
      apply (IH rest); [lia | exact Hrest | exact E]. }
    destruct (isTrailSurrogate c) eqn:T; [discriminate|].
    destruct (isLeadSurrogate c) eqn:L.
    + destruct rest as [|d rest']; [discriminate|].
      destruct (isTrailSurrogate d) eqn:Td; [|discriminate].
      destruct (encodeURIComponent rest') as [o|] eqn:E; [|discriminate].
      injection H as <-. apply Forall_cons in Hrest as [Hd Hrest'].
      apply Forall_app. split.
      * apply escape_safe. clear E IH U T. bounds; lia.
      * apply (IH rest'); [simpl in Hn; lia | exact Hrest' | exact E].
    + destruct (encodeURIComponent rest) as [o|] eqn:E; [|discriminate].
      injection H as <-. apply Forall_app. split.
      * apply escape_safe. unfold is_code_unit in Hc. lia.
      * apply (IH rest); [lia | exact Hrest | exact E].
Qed.

(** X11. The link [handleSendToTelegram] opens is the fixed address
    followed by the encoded text, and the encoded text is made of
    letters, digits, [- _ . ! ~ * ' ( )] and [%] only: whatever the
    Message says, it contains no space and none of [# & + / = ?], so it
    stays inside the [text] parameter of the link. *)
Theorem shared_text_stays_in_its_parameter (message : Message) (url : jsstring) :
  Forall is_code_unit (text message) ->
  handleSendToTelegram message = Some url ->
  exists encoded,
    url = lit "https://t.me/share/url?url= &text=" ++ encoded
    /\ encodeURIComponent (text message) = Some encoded
    /\ Forall (fun c => isUnreserved c = true \/ c = 37) encoded
    /\ Forall (fun c => ~ In c (lit " #&+/=?")) encoded.
Proof.
  intros Hs H. unfold handleSendToTelegram in H.
  destruct (encodeURIComponent (text message)) as [encoded|] eqn:E; [|discriminate].
  injection H as <-. exists encoded. split; [reflexivity|]. split; [reflexivity|].
  pose proof (encodeURIComponent_safe_upto _ _ _ (le_n _) Hs E) as S.
  split; [exact S|].
  eapply Forall_impl; [exact S|]. clear. intros c [U | ->] Hin.
  - simpl in Hin.
    repeat (destruct Hin as [<- | Hin]; [vm_compute in U; discriminate U|]).
    exact Hin.
  - simpl in Hin. repeat (destruct Hin as [Hin | Hin]; [discriminate Hin|]).
    exact Hin.
Qed.

Lemma shared_text_stays_in_its_parameter_witness :
  exists encoded,
    lit "https://t.me/share/url?url= &text=Tom%20%26%20Jerry%3F" =
    lit "https://t.me/share/url?url= &text=" ++ encoded
    /\ encodeURIComponent (lit "Tom & Jerry?") = Some encoded
    /\ Forall (fun c => isUnreserved c = true \/ c = 37) encoded
    /\ Forall (fun c => ~ In c (lit " #&+/=?")) encoded.
Proof.
  apply (shared_text_stays_in_its_parameter (mkMessage MODEL (lit "Tom & Jerry?"))).
  - repeat (apply Forall_cons; split; [reflexivity|]). apply Forall_nil. exact I.
  - reflexivity.
Defined.

Lemma encodeURIComponent_total (s : jsstring) :
  Forall (fun c => isLeadSurrogate c = false /\ isTrailSurrogate c = false) s ->
  exists out, encodeURIComponent s = Some out.
Proof.
  induction 1 as [|c rest [L T] _ [o IH]]; [exists []; reflexivity|].
  simpl. rewrite L, T, IH. destruct (isUnreserved c); simpl; eauto.
Qed.

Lemma encodeURIComponent_unreserved (s : jsstring) :
  Forall (fun c => isUnreserved c = true) s -> encodeURIComponent s = Some s.
Proof.
  induction 1 as [|c rest U _ IH]; [reflexivity|].
  simpl. rewrite U, IH. reflexivity.
Qed.

(** X12. Sharing a Message whose text has no surrogate code unit
    always opens a link, and a text of letters, digits and
    [- _ . ! ~ * ' ( )] only is put in the link as it is. *)
Theorem sharing_plain_text_succeeds (message : Message) :
  (Forall (fun c => isLeadSurrogate c = false /\ isTrailSurrogate c = false)
     (text message) ->
   exists url, handleSendToTelegram message = Some url)
  /\ (Forall (fun c => isUnreserved c = true) (text message) ->
      handleSendToTelegram message =
      Some (lit "https://t.me/share/url?url= &text=" ++ text message)).
Proof.
  unfold handleSendToTelegram. split; intros H.
  - destruct (encodeURIComponent_total _ H) as [out E]. rewrite E. eauto.
  - rewrite (encodeURIComponent_unreserved _ H). reflexivity.
Qed.

Lemma sharing_plain_text_succeeds_witness :
  (exists url, handleSendToTelegram (mkMessage MODEL (lit "a b")) = Some url)
  /\ handleSendToTelegram (mkMessage MODEL (lit "Hi!")) =
     Some (lit "https://t.me/share/url?url= &text=Hi!").
Proof.
  split.
  - apply (proj1 (sharing_plain_text_succeeds (mkMessage MODEL (lit "a b")))).
    repeat (apply Forall_cons; split; [split; reflexivity|]). apply Forall_nil. exact I.
  - apply (proj2 (sharing_plain_text_succeeds (mkMessage MODEL (lit "Hi!")))).
    repeat (apply Forall_cons; split; [reflexivity|]). apply Forall_nil. exact I.
Defined.

Lemma encodeURIComponent_trailing_lead_upto (c : char16) (n : nat) :
  isLeadSurrogate c = true ->
  forall s : jsstring, (length s <= n)%nat -> encodeURIComponent (s ++ [c]) = None.
Proof.
  intros L.
  pose proof (surrogate_not_unreserved c (or_introl L)) as U.
  pose proof (lead_not_trail c L) as T.
  induction n as [|n IH]; intros s Hn.
  - destruct s; [|simpl in Hn; lia]. simpl. rewrite U, T, L. reflexivity.
  - destruct s as [|a s]; [simpl; rewrite U, T, L; reflexivity|].
    simpl in Hn. change ((a :: s) ++ [c]) with (a :: (s ++ [c])).
    cbn [encodeURIComponent].
    rewrite (IH s) by lia.
    destruct (isUnreserved a); [reflexivity|].
    destruct (isTrailSurrogate a); [reflexivity|].
    destruct (isLeadSurrogate a); [|reflexivity].
    destruct s as [|d s']; simpl; [rewrite T; reflexivity|].
    destruct (isTrailSurrogate d); [|reflexivity].
    rewrite (IH s') by (simpl in Hn; lia). reflexivity.
Qed.

(** X13. Sharing fails, and no window is opened, when the text of the
    Message ends with the first half of a surrogate pair or starts with
    the second half of one: [encodeURIComponent] throws there. *)
Theorem sharing_fails_on_unpaired_surrogate
    (r : MessageRole) (s : jsstring) (c : char16) :
  (isLeadSurrogate c = true -> handleSendToTelegram (mkMessage r (s ++ [c])) = None)
  /\ (isTrailSurrogate c = true -> handleSendToTelegram (mkMessage r (c :: s)) = None).
Proof.
  unfold handleSendToTelegram. split; intros H; cbn [text].
  - rewrite (encodeURIComponent_trailing_lead_upto c (length s) H s (le_n _)).
    reflexivity.
  - cbn [encodeURIComponent].
    rewrite (surrogate_not_unreserved c (or_intror H)), H. reflexivity.
Qed.

Lemma sharing_fails_on_unpaired_surrogate_witness :
  handleSendToTelegram (mkMessage MODEL (lit "ok" ++ [55357])) = None
  /\ handleSendToTelegram (mkMessage MODEL (56832 :: lit "ok")) = None.
Proof.
  split.
  - apply (proj1 (sharing_fails_on_unpaired_surrogate MODEL (lit "ok") 55357)).
    reflexivity.
  - apply (proj2 (sharing_fails_on_unpaired_surrogate MODEL (lit "ok") 56832)).
    reflexivity.
Defined.

(** ** The copied indicator *)

Lemma bubble_step_invariant (message : Message) (b : Bubble) (ev : BubbleEvent)
    (b' : Bubble) :
  bubble_step message b ev = Some b' ->
  (hasCopied b = true -> (0 < timeouts b)%nat) ->
  Forall (eq (text message)) (written b) ->
  (hasCopied b' = true -> (0 < timeouts b')%nat)
  /\ Forall (eq (text message)) (written b').
Proof.
  destruct b as [h n ws], ev; simpl.
  - intros [= <-] _ Hw. simpl. split; [lia|].
    apply Forall_app. split; [exact Hw|]. apply Forall_cons. split; [reflexivity|].
    apply Forall_nil. exact I.
  - unfold timeout_fires. simpl. destruct n as [|n]; [discriminate|].
    intros [= <-] _ Hw. simpl. split; [discriminate|exact Hw].
Qed.

(** X14. The copied indicator of a bubble cannot stay on for ever:
    whenever it is on, a timer that turns it off is still to run; so
    once every timer has run it is off.  All the bubble ever writes to
    the clipboard is the text of its own Message.  The first timer to
    run turns the indicator off even if the button was clicked again
    after that timer was set. *)
Theorem copied_indicator_is_reset
    (message : Message) (evs : list BubbleEvent) (b : Bubble) :
  bubble_run message mounted evs = Some b ->
  (hasCopied b = true -> (0 < timeouts b)%nat)
  /\ (timeouts b = 0%nat -> hasCopied b = false)
  /\ Forall (eq (text message)) (written b)
  /\ exists b',
       bubble_run message b [Copy_onClick; Copy_onClick; Timeout] = Some b'
       /\ hasCopied b' = false
       /\ timeouts b' = S (timeouts b).
Proof.
  intros H.
  assert (I0 : (hasCopied b = true -> (0 < timeouts b)%nat)
               /\ Forall (eq (text message)) (written b)).
  { assert (G : forall evs b0 b1,
               bubble_run message b0 evs = Some b1 ->
               (hasCopied b0 = true -> (0 < timeouts b0)%nat) ->
               Forall (eq (text message)) (written b0) ->
               (hasCopied b1 = true -> (0 < timeouts b1)%nat)
               /\ Forall (eq (text message)) (written b1)).
    { clear. induction evs as [|ev evs IH]; intros b0 b1; simpl.
      - intros [= <-]. auto.
      - destruct (bubble_step message b0 ev) as [b2|] eqn:E; [|discriminate].
        intros R H1 H2.
        destruct (bubble_step_invariant message b0 ev b2 E H1 H2) as [H3 H4].
        exact (IH b2 b1 R H3 H4). }
    apply (G evs mounted b H); [discriminate | constructor]. }
  destruct I0 as [Ht Hw]. split; [exact Ht|]. split.
  - intros Z. destruct (hasCopied b); [|reflexivity]. specialize (Ht eq_refl). lia.
  - split; [exact Hw|]. eexists. split; [reflexivity|]. split; reflexivity.
Qed.

Lemma copied_indicator_is_reset_witness :
  let message := mkMessage MODEL (lit "Hi") in
  let b := mkBubble true 1 [lit "Hi"; lit "Hi"] in
  (hasCopied b = true -> (0 < timeouts b)%nat)
  /\ (timeouts b = 0%nat -> hasCopied b = false)
  /\ Forall (eq (text message)) (written b)
  /\ exists b',
       bubble_run message b [Copy_onClick; Copy_onClick; Timeout] = Some b'
       /\ hasCopied b' = false
       /\ timeouts b' = S (timeouts b).
Proof.
  intros message b.
  apply (copied_indicator_is_reset message [Copy_onClick; Timeout; Copy_onClick] b).
  reflexivity.
Defined.

(** ** The client's key *)

(** X15. The client is never built with an empty key.  The warning is
    printed exactly when the placeholder stands in for a key that is
    not set or is the empty string; without a warning the key is the one
    of the environment. *)
Theorem missing_key_falls_back_to_placeholder (API_KEY : option jsstring) :
  truthy (apiKey API_KEY) = true
  /\ (warns_missing_key API_KEY = true <-> API_KEY = None \/ API_KEY = Some [])
  /\ (warns_missing_key API_KEY = true -> apiKey API_KEY = API_KEY_PLACEHOLDER)
  /\ (warns_missing_key API_KEY = false -> API_KEY = Some (apiKey API_KEY)).
Proof.
  destruct API_KEY as [[|c key]|]; simpl;
    (split; [reflexivity|]);
    (split; [split; [intros H; try discriminate H; auto
                    |intros [H|H]; try discriminate H; reflexivity]|]);
    (split; intros H; try discriminate H; reflexivity).
Qed.

Lemma missing_key_falls_back_to_placeholder_witness :
  apiKey (Some []) = API_KEY_PLACEHOLDER
  /\ Some (lit "AIza") = Some (apiKey (Some (lit "AIza"))).
Proof.
  split.
  - apply (proj1 (proj2 (proj2 (missing_key_falls_back_to_placeholder (Some []))))).
    reflexivity.
  - apply (proj2 (proj2 (proj2
             (missing_key_falls_back_to_placeholder (Some (lit "AIza")))))).
    reflexivity.
Defined.
